(** * Wire-EDM simulator: the mesh ingestion and slicing core

    A shallow embedding of [src/utils/fileParser.ts] (class
    [ModelFileParser]) and of the few three.js operations it calls
    ([Vector3], [Box3], [BufferGeometry]).

    Numbers.  A JavaScript [number] is modelled by an exact rational
    ([Q]): the development reasons about the arithmetic the code writes
    down, not about binary64 rounding (nor the single-precision storage
    of the position attribute), overflow, infinities or NaN.  Two places
    where the code meets a non-finite value are spelled out where they
    occur: the empty bounding box, whose corners are infinite, and the
    division [100 / 0] of a degenerate mesh.  [Math.sqrt] has no exact
    rational counterpart and is a parameter ([sqrt]) of every definition
    that reaches it.  Equalities between computed numbers are stated with
    [==] (equality of rationals). *)

From Stdlib Require Import ZArith QArith Qabs Qminmax Qround Lqa.
From Stdlib Require Import List Arith Lia Bool String Ascii Permutation Sorted.
Import ListNotations.

Open Scope Q_scope.

(** ** JavaScript numbers and their comparisons *)

Definition Qgeb (a b : Q) : bool := Qle_bool b a.
Definition Qltb (a b : Q) : bool := negb (Qle_bool b a).
Definition Qgtb (a b : Q) : bool := Qltb b a.

Module Math.
Definition abs (a : Q) : Q := Qabs a.
Definition max (a b : Q) : Q := Qmax a b.
Definition min (a b : Q) : Q := Qmin a b.
(** [Math.max(a, b, c)] *)
Definition max3 (a b c : Q) : Q := Qmax (Qmax a b) c.
End Math.

(** A number obtained from an array length or a loop counter. *)
Definition ofNat (n : nat) : Q := inject_Z (Z.of_nat n).

(** ** Exceptions

    [parseFile] wraps its whole body in [try { ... } catch]; the helpers
    throw a [TypeError] when they dereference a missing attribute.  The
    [catch] tells an [Error] object, whose [message] it reports, from
    any other thrown value: [Throw message] is an [Error] carrying
    [message], [ThrowOther] a thrown value that is not an [Error]. *)

Inductive outcome (A : Type) : Type :=
| Return (a : A)
| Throw (message : string)
| ThrowOther.
Arguments Return {A} a.
Arguments Throw {A} message.
Arguments ThrowOther {A}.

Definition bind {A B : Type} (m : outcome A) (k : A -> outcome B) : outcome B :=
  match m with
  | Return a => k a
  | Throw message => Throw message
  | ThrowOther => ThrowOther
  end.

Notation "x <- m ;; k" := (bind m (fun x => k))
  (at level 61, m at next level, right associativity).

(** The TypeScript non-null assertion [e!] followed by a property access. *)
Definition nonNull {A : Type} (what : string) (o : option A) : outcome A :=
  match o with
  | Some a => Return a
  | None => Throw ("Cannot read properties of " ++ what)%string
  end.

(** ** Loops

    [for (let i = start; i < stop; i += step)] with [start = 0] visits [range stop step];
    the loop body is folded over it with [fold_left]. *)

Definition range (stop step : nat) : list nat :=
  map (fun k => (k * step)%nat) (seq 0 ((stop + (step - 1)) / step)).

(** ** three.js: Vector3 *)

Module Vector3.

Record t : Type := new { x : Q; y : Q; z : Q }.

(** [new THREE.Vector3()] *)
Definition zero : t := new 0 0 0.

Definition clone (v : t) : t := new (x v) (y v) (z v).

Definition sub (a b : t) : t :=
  new (x a - x b) (y a - y b) (z a - z b).

Definition dot (a b : t) : Q :=
  x a * x b + y a * y b + z a * z b.

Definition cross (a b : t) : t :=
  new (y a * z b - z a * y b)
      (z a * x b - x a * z b)
      (x a * y b - y a * x b).

Definition addVectors (a b : t) : t :=
  new (x a + x b) (y a + y b) (z a + z b).

Definition subVectors (a b : t) : t := sub a b.

Definition multiplyScalar (v : t) (s : Q) : t :=
  new (x v * s) (y v * s) (z v * s).

(** [v.lerp(w, alpha)]: [this.x += (w.x - this.x) * alpha], per axis. *)
Definition lerp (v w : t) (alpha : Q) : t :=
  new (x v + (x w - x v) * alpha)
      (y v + (y w - y v) * alpha)
      (z v + (z w - z v) * alpha).

(** The assignment [v.z = value]. *)
Definition set_z (v : t) (value : Q) : t := new (x v) (y v) value.

Definition min (a b : t) : t :=
  new (Math.min (x a) (x b)) (Math.min (y a) (y b)) (Math.min (z a) (z b)).

Definition max (a b : t) : t :=
  new (Math.max (x a) (x b)) (Math.max (y a) (y b)) (Math.max (z a) (z b)).

Definition lengthSq (v : t) : Q := x v * x v + y v * y v + z v * z v.

Definition distanceToSquared (a b : t) : Q :=
  let dx := x a - x b in
  let dy := y a - y b in
  let dz := z a - z b in
  dx * dx + dy * dy + dz * dz.

Section WithSqrt.
Variable sqrt : Q -> Q.

Definition length (v : t) : Q := sqrt (lengthSq v).

Definition distanceTo (a b : t) : Q := sqrt (distanceToSquared a b).
End WithSqrt.

End Vector3.

(** ** The per-triangle plane intersection *)

Definition getTriangleZPlaneIntersections
    (v1 v2 v3 : Vector3.t) (z tolerance : Q) : list Vector3.t :=
  let edges := [(v1, v2); (v2, v3); (v3, v1)] in
  fold_left
    (fun (intersections : list Vector3.t) (edge : Vector3.t * Vector3.t) =>
       let (start, end_) := edge in
       if (Qle_bool (Vector3.z start) (z + tolerance)
             && Qgeb (Vector3.z end_) (z - tolerance))
          || (Qgeb (Vector3.z start) (z - tolerance)
                && Qle_bool (Vector3.z end_) (z + tolerance))
       then
         if Qgtb (Math.abs (Vector3.z start - Vector3.z end_)) tolerance
         then
           let t := (z - Vector3.z start) / (Vector3.z end_ - Vector3.z start) in
           let intersection := Vector3.lerp (Vector3.clone start) end_ t in
           let intersection := Vector3.set_z intersection z in
           intersections ++ [intersection]
         else intersections
       else intersections)
    edges [].

(** ** three.js: Box3

    three.js represents the empty box by [min = (+Infinity)^3] and
    [max = (-Infinity)^3]; that is the only box with an infinite corner
    that the parser can build, and it has its own constructor here. *)

Module Box3.

Inductive t : Type :=
| empty
| box (min max : Vector3.t).

Definition makeEmpty : t := empty.

Definition isEmpty (b : t) : bool :=
  match b with
  | empty => true
  | box min max =>
      Qltb (Vector3.x max) (Vector3.x min)
      || Qltb (Vector3.y max) (Vector3.y min)
      || Qltb (Vector3.z max) (Vector3.z min)
  end.

(** [min.min(point); max.max(point)]; on the empty box both corners
    become [point]. *)
Definition expandByPoint (b : t) (point : Vector3.t) : t :=
  match b with
  | empty => box point point
  | box min max => box (Vector3.min min point) (Vector3.max max point)
  end.

Definition getCenter (b : t) : Vector3.t :=
  if isEmpty b then Vector3.zero
  else match b with
       | empty => Vector3.zero
       | box min max =>
           Vector3.multiplyScalar (Vector3.addVectors min max) (1#2)
       end.

Definition getSize (b : t) : Vector3.t :=
  if isEmpty b then Vector3.zero
  else match b with
       | empty => Vector3.zero
       | box min max => Vector3.subVectors max min
       end.

End Box3.

(** ** three.js: BufferGeometry

    [position] is the flat array of the position attribute (item size 3),
    absent when the geometry has no such attribute; [index] is the array
    of the index attribute.  Normals, material and mesh are rendering
    data that no computation below reads, and are left out. *)

Module BufferGeometry.

Record t : Type := make {
  position : option (list Q);
  index : option (list nat);
  boundingBox : option Box3.t
}.

(** The vertices held by a flat array: one per complete group of 3. *)
Fixpoint vertices (array : list Q) : list Vector3.t :=
  match array with
  | x :: y :: z :: rest => Vector3.new x y z :: vertices rest
  | _ => []
  end.

(** Rewriting every vertex of a flat array in place. *)
Fixpoint mapVertices (f : Vector3.t -> Vector3.t) (array : list Q) : list Q :=
  match array with
  | x :: y :: z :: rest =>
      let v := f (Vector3.new x y z) in
      Vector3.x v :: Vector3.y v :: Vector3.z v :: mapVertices f rest
  | tail => tail
  end.

(** [Box3.setFromBufferAttribute]: start empty, expand by every vertex. *)
Definition setFromBufferAttribute (array : list Q) : Box3.t :=
  fold_left Box3.expandByPoint (vertices array) Box3.makeEmpty.

Definition computeBoundingBox (g : t) : t :=
  make (position g) (index g)
       (Some match position g with
             | Some array => setFromBufferAttribute array
             | None => Box3.makeEmpty
             end).

(** [applyMatrix4] for the two matrices the parser uses; a bounding box
    that is already there is recomputed. *)
Definition applyToPosition (f : Vector3.t -> Vector3.t) (g : t) : t :=
  let g' := make (option_map (mapVertices f) (position g)) (index g) (boundingBox g) in
  match boundingBox g' with
  | Some _ => computeBoundingBox g'
  | None => g'
  end.

Definition translate (g : t) (tx ty tz : Q) : t :=
  applyToPosition
    (fun v => Vector3.new (Vector3.x v + tx) (Vector3.y v + ty) (Vector3.z v + tz)) g.

Definition scale (g : t) (sx sy sz : Q) : t :=
  applyToPosition
    (fun v => Vector3.new (Vector3.x v * sx) (Vector3.y v * sy) (Vector3.z v * sz)) g.

End BufferGeometry.

(** ** Typed-array reads

    An index computed from a missing element is NaN ([None]); reading an
    array outside its bounds gives [undefined] ([None]); and
    [new THREE.Vector3(x, y, z)] replaces an [undefined] argument by its
    default, 0. *)

Definition elem {A : Type} (array : list A) (i : option nat) : option A :=
  match i with
  | Some n => nth_error array n
  | None => None
  end.

Definition times (i : option nat) (k : nat) : option nat :=
  option_map (fun n => (n * k)%nat) i.

Definition plus (i : option nat) (k : nat) : option nat :=
  option_map (fun n => (n + k)%nat) i.

Definition newVector3 (x y z : option Q) : Vector3.t :=
  let arg (o : option Q) := match o with Some q => q | None => 0 end in
  Vector3.new (arg x) (arg y) (arg z).

(** The vertex whose first coordinate sits at offset [a] of [positions]. *)
Definition vertexAt (positions : list Q) (a : option nat) : Vector3.t :=
  newVector3 (elem positions a) (elem positions (plus a 1)) (elem positions (plus a 2)).

(** ** The parser's result types *)

Record Metadata : Type := {
  vertices : Q;
  faces : Q;
  volume : Q;
  surfaceArea : Q
}.

Module ParsedModel.
Record t : Type := make {
  geometry : BufferGeometry.t;
  boundingBox : Box3.t;
  cuttingPaths : list (list Vector3.t);
  metadata : Metadata
}.
End ParsedModel.

Module FileParseResult.
Record t : Type := make {
  success : bool;
  model : option ParsedModel.t;
  error : option string
}.
End FileParseResult.

Record File : Type := { name : string; arrayBuffer : list Byte.byte }.

(** ** String helpers of [parseFile]

    [toLowerCase] is [String.prototype.toLowerCase] on strings of ASCII
    characters: it lowers the letters A to Z and nothing else.  On a
    name with other characters the code also lowers those; the
    statements that quote or compare the lower-cased text assume an
    ASCII name ([isAscii]), or fix the lower-cased extension to one of
    stl, obj, ply, which only ASCII letters lower to. *)

Definition toLowerCaseChar (c : ascii) : ascii :=
  let n := nat_of_ascii c in
  if (65 <=? n)%nat && (n <=? 90)%nat then ascii_of_nat (n + 32) else c.

Fixpoint toLowerCase (s : string) : string :=
  match s with
  | EmptyString => EmptyString
  | String c rest => String (toLowerCaseChar c) (toLowerCase rest)
  end.

Fixpoint split (separator : ascii) (s : string) : list string :=
  match s with
  | EmptyString => [EmptyString]
  | String c rest =>
      if Ascii.eqb c separator then EmptyString :: split separator rest
      else match split separator rest with
           | head :: tail => String c head :: tail
           | [] => [String c EmptyString]
           end
  end.

Definition pop (parts : list string) : string := last parts EmptyString.

(** ** ModelFileParser *)

Definition positionArray (geometry : BufferGeometry.t) : outcome (list Q) :=
  nonNull "undefined (reading 'array')" (BufferGeometry.position geometry).

Definition calculateVolume (geometry : BufferGeometry.t) : outcome Q :=
  positions <- positionArray geometry ;;
  let volume := 0 in
  let volume :=
    match BufferGeometry.index geometry with
    | Some indices =>
        fold_left
          (fun (volume : Q) (i : nat) =>
             let a := times (elem indices (Some i)) 3 in
             let b := times (elem indices (Some (i + 1)%nat)) 3 in
             let c := times (elem indices (Some (i + 2)%nat)) 3 in
             let v1 := vertexAt positions a in
             let v2 := vertexAt positions b in
             let v3 := vertexAt positions c in
             volume + Vector3.dot v1 (Vector3.cross v2 v3) / 6)
          (range (List.length indices) 3) volume
    | None =>
        fold_left
          (fun (volume : Q) (i : nat) =>
             let v1 := vertexAt positions (Some i) in
             let v2 := vertexAt positions (Some (i + 3)%nat) in
             let v3 := vertexAt positions (Some (i + 6)%nat) in
             volume + Vector3.dot v1 (Vector3.cross v2 v3) / 6)
          (range (List.length positions) 9) volume
    end in
  Return (Math.abs volume).

(** The number of slicing intervals ([const sliceCount = 20]). *)
Definition sliceCount : nat := 20.

(** [remaining.splice(index, 1)] *)
Definition splice1 {A : Type} (array : list A) (index : nat) : list A :=
  firstn index array ++ skipn (S index) array.

Section ModelFileParser.

(** [Math.sqrt]. *)
Variable sqrt : Q -> Q.

(** The three-stdlib loaders and the text decoder.  A loader that
    rejects its input throws.  [objLoader_parse] gives the geometries
    of the children of the group it builds. *)
Variable stlLoader_parse : list Byte.byte -> outcome BufferGeometry.t.
Variable objLoader_parse : string -> outcome (list BufferGeometry.t).
Variable plyLoader_parse : list Byte.byte -> outcome BufferGeometry.t.
Variable TextDecoder_decode : list Byte.byte -> string.

Definition calculateSurfaceArea (geometry : BufferGeometry.t) : outcome Q :=
  positions <- positionArray geometry ;;
  let area := 0 in
  let area :=
    match BufferGeometry.index geometry with
    | Some indices =>
        fold_left
          (fun (area : Q) (i : nat) =>
             let a := times (elem indices (Some i)) 3 in
             let b := times (elem indices (Some (i + 1)%nat)) 3 in
             let c := times (elem indices (Some (i + 2)%nat)) 3 in
             let v1 := vertexAt positions a in
             let v2 := vertexAt positions b in
             let v3 := vertexAt positions c in
             let edge1 := Vector3.sub (Vector3.clone v2) v1 in
             let edge2 := Vector3.sub (Vector3.clone v3) v1 in
             area + Vector3.length sqrt (Vector3.cross edge1 edge2) / 2)
          (range (List.length indices) 3) area
    | None =>
        fold_left
          (fun (area : Q) (i : nat) =>
             let v1 := vertexAt positions (Some i) in
             let v2 := vertexAt positions (Some (i + 3)%nat) in
             let v3 := vertexAt positions (Some (i + 6)%nat) in
             let edge1 := Vector3.sub (Vector3.clone v2) v1 in
             let edge2 := Vector3.sub (Vector3.clone v3) v1 in
             area + Vector3.length sqrt (Vector3.cross edge1 edge2) / 2)
          (range (List.length positions) 9) area
    end in
  Return area.

(** The inner [for] loop of [sortContourPoints]: the index of the first
    point of [remaining] at the least distance from [current]. *)
Definition nearest (current : Vector3.t) (remaining : list Vector3.t) : nat :=
  let nearestIndex := 0%nat in
  let nearestDistance :=
    Vector3.distanceTo sqrt current (nth 0 remaining Vector3.zero) in
  fst (fold_left
         (fun (state : nat * Q) (i : nat) =>
            let (nearestIndex, nearestDistance) := state in
            let distance :=
              Vector3.distanceTo sqrt current (nth i remaining Vector3.zero) in
            if Qltb distance nearestDistance then (i, distance)
            else (nearestIndex, nearestDistance))
         (seq 1 (List.length remaining - 1))
         (nearestIndex, nearestDistance)).

(** The [while (remaining.length > 0)] loop; [fuel] bounds the number
    of iterations, and [length remaining] of them empty [remaining]. *)
Fixpoint stitch (fuel : nat) (sorted remaining : list Vector3.t)
  : list Vector3.t :=
  match fuel with
  | O => sorted
  | S fuel' =>
      if (0 <? List.length remaining)%nat then
        let current := last sorted Vector3.zero in
        let nearestIndex := nearest current remaining in
        stitch fuel'
               (sorted ++ [nth nearestIndex remaining Vector3.zero])
               (splice1 remaining nearestIndex)
      else sorted
  end.

Definition sortContourPoints (points : list Vector3.t) : list Vector3.t :=
  if (List.length points <=? 2)%nat then points
  else
    let sorted := firstn 1 points in
    let remaining := skipn 1 points in
    stitch (List.length remaining) sorted remaining.

Definition generateSliceContour (geometry : BufferGeometry.t) (z : Q)
  : outcome (list Vector3.t) :=
  let contour := [] in
  positions <- positionArray geometry ;;
  let tolerance := 1 # 10 in
  let contour :=
    match BufferGeometry.index geometry with
    | Some indices =>
        fold_left
          (fun (contour : list Vector3.t) (i : nat) =>
             let a := times (elem indices (Some i)) 3 in
             let b := times (elem indices (Some (i + 1)%nat)) 3 in
             let c := times (elem indices (Some (i + 2)%nat)) 3 in
             let v1 := vertexAt positions a in
             let v2 := vertexAt positions b in
             let v3 := vertexAt positions c in
             let intersections :=
               getTriangleZPlaneIntersections v1 v2 v3 z tolerance in
             contour ++ intersections)
          (range (List.length indices) 3) contour
    | None => contour
    end in
  if (2 <? List.length contour)%nat then Return (sortContourPoints contour)
  else Return contour.

(** On the empty box [min.z] is [+Infinity] and [max.z] is [-Infinity]:
    every [z] of the loop is NaN, no comparison of
    [getTriangleZPlaneIntersections] holds and no slice is kept. *)
Definition generateCuttingPaths (geometry : BufferGeometry.t)
  : outcome (list (list Vector3.t)) :=
  boundingBox <- nonNull "null (reading 'min')"
                   (BufferGeometry.boundingBox geometry) ;;
  let paths : list (list Vector3.t) := [] in
  match boundingBox with
  | Box3.empty =>
      _ <- positionArray geometry ;;
      Return paths
  | Box3.box min max =>
      let minZ := Vector3.z min in
      let maxZ := Vector3.z max in
      let sliceHeight := (maxZ - minZ) / ofNat sliceCount in
      fold_left
        (fun (state : outcome (list (list Vector3.t))) (i : nat) =>
           paths <- state ;;
           let z := minZ + ofNat i * sliceHeight in
           slicePath <- generateSliceContour geometry z ;;
           if (0 <? List.length slicePath)%nat
           then Return (paths ++ [slicePath])
           else Return paths)
        (seq 0 (sliceCount + 1)) (Return paths)
  end.

(** "Center and scale the geometry": lines 76 to 86 of [parseFile].
    There is no test on [maxDimension].  When it is 0, JavaScript's
    [100 / 0] is [Infinity] and the scaled coordinates come out as NaN,
    whereas the rational division gives 0: in that case only the control
    flow of the model, which never looks at [scale], matches the code. *)
Definition centerAndScale (geometry : BufferGeometry.t)
  : outcome BufferGeometry.t :=
  let geometry := BufferGeometry.computeBoundingBox geometry in
  boundingBox <- nonNull "null (reading 'getCenter')"
                   (BufferGeometry.boundingBox geometry) ;;
  let center := Box3.getCenter boundingBox in
  let size := Box3.getSize boundingBox in
  let maxDimension :=
    Math.max3 (Vector3.x size) (Vector3.y size) (Vector3.z size) in
  let scale := 100 / maxDimension in
  let geometry :=
    BufferGeometry.translate geometry
      (- Vector3.x center) (- Vector3.y center) (- Vector3.z center) in
  let geometry := BufferGeometry.scale geometry scale scale scale in
  let geometry := BufferGeometry.computeBoundingBox geometry in
  Return geometry.

(** [parseFile] from the position check on (lines 63 to 125).  The
    normals (lines 71 to 74), the material and the mesh object do not
    enter any computed field and are not represented. *)
Definition assemble (geometry : BufferGeometry.t)
  : outcome FileParseResult.t :=
  match BufferGeometry.position geometry with
  | None =>
      Return (FileParseResult.make false None
                (Some "Invalid geometry: missing position attributes"%string))
  | Some _ =>
      geometry <- centerAndScale geometry ;;
      position <- positionArray geometry ;;
      let vertices := ofNat (List.length position) / 3 in
      let faces :=
        match BufferGeometry.index geometry with
        | Some indices => ofNat (List.length indices) / 3
        | None => vertices / 3
        end in
      volume <- calculateVolume geometry ;;
      surfaceArea <- calculateSurfaceArea geometry ;;
      cuttingPaths <- generateCuttingPaths geometry ;;
      boundingBox <- nonNull "null" (BufferGeometry.boundingBox geometry) ;;
      let parsedModel :=
        ParsedModel.make geometry boundingBox cuttingPaths
          {| vertices := vertices; faces := faces;
             volume := volume; surfaceArea := surfaceArea |} in
      Return (FileParseResult.make true (Some parsedModel) None)
  end.

(** The [switch (extension)]: the decoded geometry, or [None] for the
    [default] branch. *)
Definition decode (extension : string) (arrayBuffer : list Byte.byte)
  : option (outcome BufferGeometry.t) :=
  if String.eqb extension "stl" then Some (stlLoader_parse arrayBuffer)
  else if String.eqb extension "obj" then
    Some (let objText := TextDecoder_decode arrayBuffer in
          children <- objLoader_parse objText ;;
          nonNull "undefined (reading 'geometry')" (nth_error children 0))
  else if String.eqb extension "ply" then Some (plyLoader_parse arrayBuffer)
  else None.

Definition parseFile (file : File) : FileParseResult.t :=
  let body :=
    let extension := pop (split "." (toLowerCase (name file))) in
    match decode extension (arrayBuffer file) with
    | Some decoded =>
        geometry <- decoded ;;
        assemble geometry
    | None =>
        Return (FileParseResult.make false None
                  (Some ("Unsupported file format: " ++ extension
                           ++ ". Supported formats: STL, OBJ, PLY")%string))
    end in
  match body with
  | Return result => result
  | Throw message =>
      FileParseResult.make false None
        (Some ("Failed to parse file: " ++ message)%string)
  | ThrowOther =>
      FileParseResult.make false None
        (Some "Failed to parse file: Unknown error"%string)
  end.

End ModelFileParser.

(** ** Vocabulary of the specification *)

(** The test of [getTriangleZPlaneIntersections] on one edge: the edge
    reaches the plane [Z = z] within [tolerance], and the heights of its
    ends differ by more than [tolerance]. *)
Definition edgeCrosses (start end_ : Vector3.t) (z tolerance : Q) : bool :=
  ((Qle_bool (Vector3.z start) (z + tolerance)
      && Qgeb (Vector3.z end_) (z - tolerance))
   || (Qgeb (Vector3.z start) (z - tolerance)
         && Qle_bool (Vector3.z end_) (z + tolerance)))
  && Qgtb (Math.abs (Vector3.z start - Vector3.z end_)) tolerance.

Definition Triangle : Type := Vector3.t * Vector3.t * Vector3.t.

(** Non-indexed mesh: every 9 consecutive floats are one triangle. *)
Fixpoint soupTriangles (positions : list Q) : list Triangle :=
  match positions with
  | x1 :: y1 :: z1 :: x2 :: y2 :: z2 :: x3 :: y3 :: z3 :: rest =>
      (Vector3.new x1 y1 z1, Vector3.new x2 y2 z2, Vector3.new x3 y3 z3)
        :: soupTriangles rest
  | _ => []
  end.

(** Indexed mesh: every 3 consecutive indices name one triangle. *)
Fixpoint indexTriples (indices : list nat) : list (nat * nat * nat) :=
  match indices with
  | a :: b :: c :: rest => (a, b, c) :: indexTriples rest
  | _ => []
  end.

Definition vertex (positions : list Q) (k : nat) : Vector3.t :=
  nth k (BufferGeometry.vertices positions) Vector3.zero.

Definition indexedTriangles (positions : list Q) (indices : list nat)
  : list Triangle :=
  map (fun t : nat * nat * nat =>
         let '(a, b, c) := t in
         (vertex positions a, vertex positions b, vertex positions c))
      (indexTriples indices).

Definition triangles (positions : list Q) (index : option (list nat))
  : list Triangle :=
  match index with
  | Some indices => indexedTriangles positions indices
  | None => soupTriangles positions
  end.

(** The data-model invariant of a mesh. *)
Definition wellFormed (positions : list Q) (index : option (list nat)) : Prop :=
  match index with
  | Some indices =>
      (List.length positions mod 3 = 0)%nat
      /\ (List.length indices mod 3 = 0)%nat
      /\ Forall (fun k => (k < List.length positions / 3)%nat) indices
  | None => (List.length positions mod 9 = 0)%nat
  end.

(** A quantity of a triangle given as a function of its three corners. *)
Definition termOf (term : Vector3.t -> Vector3.t -> Vector3.t -> Q)
    (t : Triangle) : Q :=
  let '(a, b, c) := t in term a b c.

Definition signedVolume (t : Triangle) : Q :=
  let '(a, b, c) := t in Vector3.dot a (Vector3.cross b c) / 6.

Definition triangleArea (sqrt : Q -> Q) (t : Triangle) : Q :=
  let '(a, b, c) := t in
  let edge1 := Vector3.sub b a in
  let edge2 := Vector3.sub c a in
  Vector3.length sqrt (Vector3.cross edge1 edge2) / 2.

Fixpoint sum (terms : list Q) : Q :=
  match terms with
  | [] => 0
  | q :: rest => q + sum rest
  end.

(** The mesh made of the triangles of [g1] followed by those of [g2]:
    positions are concatenated and the indices of [g2] shifted past the
    vertices of [g1]. *)
Definition concatMeshes (g1 g2 : BufferGeometry.t) : option BufferGeometry.t :=
  match BufferGeometry.position g1, BufferGeometry.position g2 with
  | Some p1, Some p2 =>
      match BufferGeometry.index g1, BufferGeometry.index g2 with
      | None, None => Some (BufferGeometry.make (Some (p1 ++ p2)) None None)
      | Some i1, Some i2 =>
          Some (BufferGeometry.make
                  (Some (p1 ++ p2))
                  (Some (i1 ++ map (fun k => (k + List.length p1 / 3)%nat) i2))
                  None)
      | _, _ => None
      end
  | _, _ => None
  end.

(** The largest side of a box, [Math.max(size.x, size.y, size.z)]. *)
Definition maxDimension (b : Box3.t) : Q :=
  let size := Box3.getSize b in
  Math.max3 (Vector3.x size) (Vector3.y size) (Vector3.z size).

(** The height of the [i]-th slicing plane of a box. *)
Definition sliceZ (min max : Vector3.t) (i : nat) : Q :=
  Vector3.z min
  + ofNat i * ((Vector3.z max - Vector3.z min) / ofNat sliceCount).

(** A stand-in for [Math.sqrt] to run the definitions with: the square
    root rounded down to three decimals. *)
Definition sqrtMilli (q : Q) : Q :=
  inject_Z (Z.sqrt (Qfloor (q * 1000000))) / 1000.

(** ** Sample inputs *)

(** An axis-aligned cube of side 20 with a corner at the origin, indexed. *)
Definition cubePositions : list Q :=
  [0; 0; 0;   20; 0; 0;   20; 20; 0;   0; 20; 0;
   0; 0; 20;  20; 0; 20;  20; 20; 20;  0; 20; 20].

Definition cubeIndices : list nat :=
  [0; 2; 1;  0; 3; 2;  4; 5; 6;  4; 6; 7;  0; 1; 5;  0; 5; 4;
   1; 2; 6;  1; 6; 5;  2; 3; 7;  2; 7; 6;  3; 0; 4;  3; 4; 7]%nat.

Definition cube : BufferGeometry.t :=
  BufferGeometry.make (Some cubePositions) (Some cubeIndices) None.

Definition cubeBoxed : BufferGeometry.t :=
  BufferGeometry.make (Some cubePositions) (Some cubeIndices)
    (Some (Box3.box (Vector3.new 0 0 0) (Vector3.new 20 20 20))).

(** One triangle, not indexed, as an STL file decodes. *)
Definition trianglePositions : list Q := [0; 0; 0;  4; 0; 0;  0; 3; 1].

Definition triangleSoup : BufferGeometry.t :=
  BufferGeometry.make (Some trianglePositions) None
    (Some (Box3.box (Vector3.new 0 0 0) (Vector3.new 4 3 1))).

(** A triangle whose three corners coincide: its bounding box is a point. *)
Definition degeneratePositions : list Q := [1; 2; 3;  1; 2; 3;  1; 2; 3].

Definition degenerateTriangle : BufferGeometry.t :=
  BufferGeometry.make (Some degeneratePositions) None None.

(** A geometry with a position attribute that holds no vertex. *)
Definition noVertices : BufferGeometry.t :=
  BufferGeometry.make (Some []) None None.

(** A geometry without a position attribute. *)
Definition noPosition : BufferGeometry.t :=
  BufferGeometry.make None None None.

Definition sampleFile : File := {| name := "Part.STL"; arrayBuffer := [] |}.

(** [parseFile] on [sampleFile] with loaders that decode it to [geometry]. *)
Definition parseSampleAs (geometry : BufferGeometry.t) : FileParseResult.t :=
  parseFile sqrtMilli
    (fun _ => Return geometry) (fun _ => Return [geometry])
    (fun _ => Return geometry) (fun _ => EmptyString)
    sampleFile.

(** ** More vocabulary *)

(** A string made of ASCII characters only (code points below 128). *)
Fixpoint isAscii (s : string) : bool :=
  match s with
  | EmptyString => true
  | String c rest => (nat_of_ascii c <? 128)%nat && isAscii rest
  end.

(** The file name is [ext], or ends with a "." followed by [ext]. *)
Definition endsWithExtension (fileName ext : string) : Prop :=
  fileName = ext \/ exists base, fileName = (base ++ "." ++ ext)%string.

(** Whether the character occurs in the string. *)
Fixpoint contains (c : ascii) (s : string) : bool :=
  match s with
  | EmptyString => false
  | String a rest => Ascii.eqb a c || contains c rest
  end.

(** The same triangles with the opposite winding: the second and third
    index of every triple exchanged. *)
Fixpoint flipWinding (indices : list nat) : list nat :=
  match indices with
  | a :: b :: c :: rest => a :: c :: b :: flipWinding rest
  | tail => tail
  end.

Definition mapTriangle (h : Vector3.t -> Vector3.t) (t : Triangle) : Triangle :=
  let '(a, b, c) := t in (h a, h b, h c).

(** What [getTriangleZPlaneIntersections] pushes for one edge. *)
Definition edgePoints (start end_ : Vector3.t) (z tolerance : Q)
  : list Vector3.t :=
  if edgeCrosses start end_ z tolerance then
    [Vector3.set_z
       (Vector3.lerp (Vector3.clone start) end_
          ((z - Vector3.z start) / (Vector3.z end_ - Vector3.z start)))
       z]
  else [].

(** A path along which every hop goes to a point that is, among the
    points still to come, one of the nearest to the current point. *)
Fixpoint nearestFirst (sqrt : Q -> Q) (current : Vector3.t)
    (path : list Vector3.t) : Prop :=
  match path with
  | [] => True
  | next :: rest =>
      (forall other, In other rest ->
         Vector3.distanceTo sqrt current next
         <= Vector3.distanceTo sqrt current other)
      /\ nearestFirst sqrt next rest
  end.

(** The intersection points of one triangle with the plane [Z = z]. *)
Definition trianglePoints (z tolerance : Q) (t : Triangle) : list Vector3.t :=
  let '(a, b, c) := t in getTriangleZPlaneIntersections a b c z tolerance.

(** * The callers of the parser *)

(** ** FileUploadPanel.tsx: handleFileSelect

    The handler is followed up to the callback it ends with: either
    [onModelLoaded(model)] or [setError(message)].  The progress bar and
    the timers around the call of [parseFile] are display only. *)

Definition supportedFormats : list string := [".stl"; ".obj"; ".ply"]%string.

Definition maxFileSize : Z := 50 * 1024 * 1024.

Inductive UploadOutcome : Type :=
| ModelLoaded (model : ParsedModel.t)
| UploadError (message : string).

(** [array.includes(item)] on strings. *)
Definition includes (array : list string) (item : string) : bool :=
  existsb (String.eqb item) array.

Section FileUploadPanel.

Variable sqrt : Q -> Q.
Variable stlLoader_parse : list Byte.byte -> outcome BufferGeometry.t.
Variable objLoader_parse : string -> outcome (list BufferGeometry.t).
Variable plyLoader_parse : list Byte.byte -> outcome BufferGeometry.t.
Variable TextDecoder_decode : list Byte.byte -> string.

(** [file.size] is the byte length of the file. *)
Definition handleFileSelect (file : File) : UploadOutcome :=
  if (maxFileSize <? Z.of_nat (List.length (arrayBuffer file)))%Z then
    UploadError "File size exceeds 50MB limit"
  else
    let extension :=
      ("." ++ pop (split "." (toLowerCase (name file))))%string in
    if negb (includes supportedFormats extension) then
      UploadError
        ("Unsupported file format. Supported formats: "
           ++ String.concat ", " supportedFormats)%string
    else
      let result :=
        parseFile sqrt stlLoader_parse objLoader_parse plyLoader_parse
          TextDecoder_decode file in
      match FileParseResult.success result, FileParseResult.model result with
      | true, Some model => ModelLoaded model
      | _, _ =>
          UploadError
            match FileParseResult.error result with
            | Some (String c rest) => String c rest
            | _ => "Failed to parse file"%string
            end
      end.

End FileUploadPanel.

(** ** Model3DViewer.tsx: the cutting paths drawn at a given progress *)

(** [array.slice(0, end)] for an integer [end]: a negative [end] counts
    from the end of the array. *)
Definition slice0 {A : Type} (array : list A) (end_ : Z) : list A :=
  if (end_ <? 0)%Z
  then firstn (Z.to_nat (Z.max (Z.of_nat (List.length array) + end_) 0)) array
  else firstn (Z.to_nat end_) array.

Definition pathsToShow (model : ParsedModel.t) (cuttingProgress : Q) : Z :=
  Qfloor (cuttingProgress / 100
          * ofNat (List.length (ParsedModel.cuttingPaths model))).

(** The point lists of the lines that the effect adds to the group. *)
Definition drawnPaths (model : ParsedModel.t) (cuttingProgress : Q)
  : list (list Vector3.t) :=
  filter (fun path => (1 <? List.length path)%nat)
         (slice0 (ParsedModel.cuttingPaths model)
                 (pathsToShow model cuttingProgress)).

(** ** CuttingSimulation.tsx *)

(** A coordinate read from a bounding box: the corners of the empty box
    are infinite. *)
Inductive Coordinate : Type :=
| Finite (q : Q)
| PlusInfinity
| MinusInfinity.

Module Point3D.
Record t : Type := make { x : Coordinate; y : Coordinate; z : Coordinate }.
End Point3D.

Definition boxMin (b : Box3.t) : Point3D.t :=
  match b with
  | Box3.empty => Point3D.make PlusInfinity PlusInfinity PlusInfinity
  | Box3.box min _ =>
      Point3D.make (Finite (Vector3.x min)) (Finite (Vector3.y min))
                   (Finite (Vector3.z min))
  end.

Definition boxMax (b : Box3.t) : Point3D.t :=
  match b with
  | Box3.empty => Point3D.make MinusInfinity MinusInfinity MinusInfinity
  | Box3.box _ max =>
      Point3D.make (Finite (Vector3.x max)) (Finite (Vector3.y max))
                   (Finite (Vector3.z max))
  end.

Definition convertModelToCuttingPath (model : ParsedModel.t) : list Point3D.t :=
  if (0 <? List.length (ParsedModel.cuttingPaths model))%nat then
    map (fun v => Point3D.make (Finite (Vector3.x v)) (Finite (Vector3.y v))
                               (Finite (Vector3.z v)))
        (nth 0 (ParsedModel.cuttingPaths model) [])
  else
    let box := ParsedModel.boundingBox model in
    [ Point3D.make (Point3D.x (boxMin box)) (Point3D.y (boxMin box))
                   (Point3D.z (boxMax box));
      Point3D.make (Point3D.x (boxMax box)) (Point3D.y (boxMin box))
                   (Point3D.z (boxMax box));
      Point3D.make (Point3D.x (boxMax box)) (Point3D.y (boxMax box))
                   (Point3D.z (boxMax box));
      Point3D.make (Point3D.x (boxMin box)) (Point3D.y (boxMax box))
                   (Point3D.z (boxMax box));
      Point3D.make (Point3D.x (boxMin box)) (Point3D.y (boxMin box))
                   (Point3D.z (boxMax box)) ].

(** The progress update of one animation frame (lines 348 to 358): the
    state is [cutProgress.current] and the [isComplete] flag. *)
Definition updateCutProgress (isRunning : bool) (wireSpeed : Q)
    (state : Q * bool) : Q * bool :=
  let (cutProgress, isComplete) := state in
  if isRunning && Qltb cutProgress 100 then
    let speed := Math.max (1 # 10) (wireSpeed / 2500) in
    let cutProgress := cutProgress + speed in
    if Qgeb cutProgress 100 then (100, true)
    else (cutProgress, isComplete)
  else (cutProgress, isComplete).

(** [resetSimulation]. *)
Definition resetSimulation : Q * bool := (0, false).

(** A run of frames, each with its running flag and wire speed. *)
Definition animateFrames (frames : list (bool * Q)) (state : Q * bool)
  : Q * bool :=
  fold_left (fun state frame => updateCutProgress (fst frame) (snd frame) state)
            frames state.

(** ** App.tsx and ParameterPanel.tsx: the process metrics *)

Record EDMParameters : Type := {
  voltage : Q;
  current : Q;
  pulseOnTime : Q;
  pulseOffTime : Q;
  wireSpeed : Q;
  dielectricFlow : Q;
  wireOffset : Q;
  sparkGap : Q
}.

Module ProcessMetrics.
Record t : Type := make {
  dischargeEnergy : Q;
  dutyCycle : Q;
  powerConsumption : Q;
  estimatedCostPerHour : Q;
  materialRemovalRate : Q;
  surfaceRoughness : Q;
  wireWearRate : Q;
  efficiency : Q
}.
End ProcessMetrics.

Definition processMetrics (parameters : EDMParameters) : ProcessMetrics.t :=
  let dischargeEnergy :=
    (voltage parameters * current parameters * pulseOnTime parameters) / 1000 in
  let dutyCycle :=
    (pulseOnTime parameters
     / (pulseOnTime parameters + pulseOffTime parameters)) * 100 in
  let powerConsumption := (voltage parameters * current parameters) / 1000 in
  let estimatedCostPerHour :=
    powerConsumption * (12 # 100) + 15 + (wireSpeed parameters * (2 # 100)) in
  let materialRemovalRate :=
    (dischargeEnergy * dutyCycle * current parameters) / 100 in
  let surfaceRoughness :=
    Math.max (1 # 10)
      (5 - (voltage parameters / 100) + (pulseOnTime parameters / 20)) in
  let wireWearRate :=
    (current parameters * voltage parameters)
    / (wireSpeed parameters * 100) in
  let efficiency :=
    Math.min 100
      ((dutyCycle * dielectricFlow parameters * wireSpeed parameters) / 1000) in
  ProcessMetrics.make dischargeEnergy dutyCycle powerConsumption
    estimatedCostPerHour materialRemovalRate surfaceRoughness wireWearRate
    efficiency.

(** The [min] and [max] of the sliders of [parameterConfigs]. *)
Definition withinSliderRanges (parameters : EDMParameters) : Prop :=
  20 <= voltage parameters <= 300
  /\ 1 <= current parameters <= 50
  /\ (1 # 2) <= pulseOnTime parameters <= 100
  /\ 1 <= pulseOffTime parameters <= 200
  /\ 10 <= wireSpeed parameters <= 500
  /\ (1 # 2) <= dielectricFlow parameters <= 20
  /\ 0 <= wireOffset parameters <= 5
  /\ (1 # 1000) <= sparkGap parameters <= (1 # 10).

(** ** aiModels.ts: the prediction of the SVM model *)

Module Prediction.
Record t : Type := make {
  materialRemovalRate : Q;
  surfaceRoughness : Q;
  dimensionalAccuracy : Q;
  processingTime : Q
}.
End Prediction.

Module SVMWeights.
Definition voltage : Q := 2 # 100.
Definition current : Q := 15 # 100.
Definition pulseOn : Q := - (1 # 100).
Definition pulseOff : Q := 5 # 1000.
End SVMWeights.

(** The [predict] closure that [trainSVM] returns. *)
Definition svmPredict (params : EDMParameters) : Prediction.t :=
  Prediction.make
    (Math.max 0
       (SVMWeights.voltage * voltage params
        + SVMWeights.current * current params
        - SVMWeights.pulseOn * pulseOnTime params
        + SVMWeights.pulseOff * pulseOffTime params))
    (Math.max (1 # 10) (3 - (voltage params / 100) + (pulseOnTime params / 20)))
    (Math.max 1 (10 - (current params / 5) - (voltage params / 50)))
    (Math.max 1
       (60 - (current params * (5 # 10)) - (voltage params * (1 # 10)))).

(** The parameters the application starts with. *)
Definition defaultParameters : EDMParameters :=
  {| voltage := 150; current := 25; pulseOnTime := 50; pulseOffTime := 100;
     wireSpeed := 250; dielectricFlow := 10; wireOffset := 25 # 10;
     sparkGap := 5 # 100 |}.

(** ** More sample inputs *)

Definition textFile : File := {| name := "notes.TXT"; arrayBuffer := [] |}.

Definition objFile : File := {| name := "gear.Obj"; arrayBuffer := [] |}.

Definition plyFile : File := {| name := "ply"; arrayBuffer := [] |}.

Definition bracketFile : File :=
  {| name := "Bracket.v2.STL"; arrayBuffer := [] |}.

Definition bareFile : File := {| name := "stl"; arrayBuffer := [] |}.

(** A flat square plate in the plane Z = 0, indexed. *)
Definition platePositions : list Q :=
  [0; 0; 0;  10; 0; 0;  10; 10; 0;  0; 10; 0].

Definition plateIndices : list nat := [0; 1; 2;  0; 2; 3]%nat.

Definition plate : BufferGeometry.t :=
  BufferGeometry.make (Some platePositions) (Some plateIndices)
    (Some (Box3.box (Vector3.new 0 0 0) (Vector3.new 10 10 0))).

(** A tetrahedron with three edges along the axes, indexed. *)
Definition tetrahedronPositions : list Q :=
  [0; 0; 0;  10; 0; 0;  0; 10; 0;  0; 0; 10].

Definition tetrahedronIndices : list nat :=
  [0; 2; 1;  0; 1; 3;  1; 2; 3;  0; 3; 2]%nat.

Definition tetrahedron : BufferGeometry.t :=
  BufferGeometry.make (Some tetrahedronPositions) (Some tetrahedronIndices) None.

Definition modelOr (fallback : ParsedModel.t) (found : option ParsedModel.t)
  : ParsedModel.t :=
  match found with
  | Some model => model
  | None => fallback
  end.

(** The model that [parseFile] builds from the tetrahedron. *)
Definition tetrahedronModel : ParsedModel.t :=
  Eval vm_compute in
    modelOr
      (ParsedModel.make tetrahedron Box3.empty []
         {| vertices := 0; faces := 0; volume := 0; surfaceArea := 0 |})
      (FileParseResult.model (parseSampleAs tetrahedron)).

(** A triangle that the plane Z = 0 crosses away from its corners. *)
Definition crossingTriangle : Triangle :=
  (Vector3.new 0 0 (-1), Vector3.new 2 0 1, Vector3.new 0 4 3).

(** * Properties *)

(** ** Lists and loops *)

Lemma fold_left_app_Forall {A B : Type} (P : A -> Prop) (f : B -> list A)
    (l : list B) (acc : list A) :
  Forall P acc -> (forall b, In b l -> Forall P (f b)) ->
  Forall P (fold_left (fun acc b => acc ++ f b) l acc).
Proof.
  revert acc. induction l as [|b l IH]; simpl; intros acc Hacc Hf.
  - exact Hacc.
  - apply IH.
    + apply Forall_app. split; [exact Hacc | apply Hf; now left].
    + intros b' Hb'. apply Hf. now right.
Qed.

Lemma splice1_Permutation {A : Type} (d : A) (l : list A) (i : nat) :
  (i < List.length l)%nat ->
  Permutation l (nth i l d :: splice1 l i).
Proof.
  revert i. induction l as [|a l IH]; simpl; intros i Hi.
  - lia.
  - destruct i as [|i].
    + unfold splice1. simpl. apply Permutation_refl.
    + unfold splice1 in *. simpl.
      eapply Permutation_trans.
      * apply perm_skip. apply (IH i). lia.
      * apply perm_swap.
Qed.

Lemma splice1_length {A : Type} (l : list A) (i : nat) :
  (i < List.length l)%nat ->
  List.length (splice1 l i) = (List.length l - 1)%nat.
Proof.
  intros Hi. unfold splice1.
  rewrite length_app, length_firstn, length_skipn. lia.
Qed.

Lemma Forall2_In_right {A B : Type} (R : A -> B -> Prop) l l' (b : B) :
  Forall2 R l l' -> In b l' -> exists a, In a l /\ R a b.
Proof.
  induction 1 as [|a b' l l' Hab _ IH]; simpl; intros Hin.
  - contradiction.
  - destruct Hin as [<-|Hin].
    + exists a. auto.
    + destruct (IH Hin) as [a' [Ha' Hr]]. exists a'. auto.
Qed.

(** ** The triangle/plane intersection *)

Ltac split_edge_tests :=
  repeat match goal with
         | |- context [if ?b then _ else _] => destruct b; simpl
         end.

Lemma getTriangleZPlaneIntersections_on_plane v1 v2 v3 z tolerance :
  Forall (fun p => Vector3.z p = z)
         (getTriangleZPlaneIntersections v1 v2 v3 z tolerance).
Proof.
  unfold getTriangleZPlaneIntersections. simpl.
  split_edge_tests; repeat constructor.
Qed.

(** C2 (as the code has it): the routine emits one point for each of the
    edges (v1,v2), (v2,v3), (v3,v1) that passes the crossing test, so 0,
    1, 2 or 3 points; in particular 2 exactly when exactly two edges
    pass, and 3 when all three do. *)
Theorem getTriangleZPlaneIntersections_count v1 v2 v3 z tolerance :
  let emitted := List.length (getTriangleZPlaneIntersections v1 v2 v3 z tolerance) in
  emitted = (Nat.b2n (edgeCrosses v1 v2 z tolerance)
             + Nat.b2n (edgeCrosses v2 v3 z tolerance)
             + Nat.b2n (edgeCrosses v3 v1 z tolerance))%nat
  /\ (emitted <= 3)%nat.
Proof.
  unfold getTriangleZPlaneIntersections, edgeCrosses. simpl.
  split_edge_tests; split; simpl; try reflexivity; lia.
Qed.

(** C2 fails as stated: a triangle with one vertex on the plane and the
    other two on opposite sides yields three points. *)
Lemma getTriangleZPlaneIntersections_three_points :
  ~ (List.length
       (getTriangleZPlaneIntersections
          (Vector3.new 0 0 (-1)) (Vector3.new 1 0 1) (Vector3.new 0 1 0)
          0 (1 # 10)) <= 2)%nat.
Proof. vm_compute. intros H. repeat (inversion H as [|? H']; clear H; rename H' into H). Qed.

(** ** The greedy stitching *)

Section Stitching.

Variable sqrt : Q -> Q.

Lemma nearest_fold_bound current (remaining : list Vector3.t) l state :
  (fst state < List.length remaining)%nat ->
  Forall (fun i => (i < List.length remaining)%nat) l ->
  (fst (fold_left
          (fun (state : nat * Q) (i : nat) =>
             let (nearestIndex, nearestDistance) := state in
             let distance :=
               Vector3.distanceTo sqrt current (nth i remaining Vector3.zero) in
             if Qltb distance nearestDistance then (i, distance)
             else (nearestIndex, nearestDistance))
          l state) < List.length remaining)%nat.
Proof.
  revert state. induction l as [|i l IH]; simpl; intros [n d] Hn Hl.
  - exact Hn.
  - inversion Hl as [|? ? Hi Hl']; subst.
    apply IH; [|exact Hl'].
    destruct (Qltb _ d); simpl; [exact Hi | exact Hn].
Qed.

Lemma nearest_lt current remaining :
  (0 < List.length remaining)%nat ->
  (nearest sqrt current remaining < List.length remaining)%nat.
Proof.
  intros Hlen. unfold nearest. apply nearest_fold_bound.
  - simpl. exact Hlen.
  - apply Forall_forall. intros i Hi. apply in_seq in Hi. lia.
Qed.

Lemma stitch_Permutation fuel : forall sorted remaining,
  (List.length remaining <= fuel)%nat ->
  Permutation (sorted ++ remaining) (stitch sqrt fuel sorted remaining).
Proof.
  induction fuel as [|fuel IH]; intros sorted remaining Hfuel.
  - destruct remaining; simpl in *; [|lia]. now rewrite app_nil_r.
  - simpl. destruct (0 <? List.length remaining)%nat eqn:Hpos.
    + apply Nat.ltb_lt in Hpos.
      pose proof (nearest_lt (last sorted Vector3.zero) remaining Hpos) as Hn.
      eapply Permutation_trans; [|apply IH].
      * rewrite <- app_assoc. apply Permutation_app_head. simpl.
        now apply splice1_Permutation.
      * rewrite splice1_length by exact Hn. lia.
    + apply Nat.ltb_ge in Hpos. destruct remaining; simpl in *; [|lia].
      now rewrite app_nil_r.
Qed.

Lemma stitch_prefix fuel : forall sorted remaining,
  exists tail, stitch sqrt fuel sorted remaining = sorted ++ tail.
Proof.
  induction fuel as [|fuel IH]; intros sorted remaining; simpl.
  - exists []. now rewrite app_nil_r.
  - destruct (0 <? List.length remaining)%nat.
    + destruct (IH (sorted ++ [nth (nearest sqrt (last sorted Vector3.zero) remaining)
                                   remaining Vector3.zero])
                   (splice1 remaining
                      (nearest sqrt (last sorted Vector3.zero) remaining)))
        as [tail Htail].
      rewrite Htail, <- app_assoc. eauto.
    + exists []. now rewrite app_nil_r.
Qed.

Lemma sortContourPoints_Permutation points :
  Permutation points (sortContourPoints sqrt points).
Proof.
  unfold sortContourPoints.
  destruct (List.length points <=? 2)%nat.
  - apply Permutation_refl.
  - rewrite <- (firstn_skipn 1 points) at 1.
    apply stitch_Permutation. lia.
Qed.

(** C10: the stitching returns a permutation of its input (same length,
    same multiset of points); with 3 or more points the output starts
    with the first input point, and with 2 or fewer the input comes back
    unchanged. *)
Theorem sortContourPoints_permutes points :
  Permutation points (sortContourPoints sqrt points)
  /\ List.length (sortContourPoints sqrt points) = List.length points
  /\ ((3 <= List.length points)%nat ->
      hd_error (sortContourPoints sqrt points) = hd_error points)
  /\ ((List.length points <= 2)%nat ->
      sortContourPoints sqrt points = points).
Proof.
  pose proof (sortContourPoints_Permutation points) as Hperm.
  repeat split.
  - exact Hperm.
  - symmetry. now apply Permutation_length.
  - intros Hlen. unfold sortContourPoints.
    destruct (Nat.leb_spec (List.length points) 2) as [Hle|_]; [lia|].
    destruct points as [|p rest]; [simpl in Hlen; lia|].
    destruct (stitch_prefix (List.length (skipn 1 (p :: rest)))
                (firstn 1 (p :: rest)) (skipn 1 (p :: rest))) as [tail Htail].
    rewrite Htail. reflexivity.
  - intros Hlen. unfold sortContourPoints.
    destruct (Nat.leb_spec (List.length points) 2) as [_|Hgt]; [reflexivity|lia].
Qed.

(** ** Slicing *)

Lemma generateSliceContour_returns geometry positions z :
  BufferGeometry.position geometry = Some positions ->
  exists contour,
    generateSliceContour sqrt geometry z = Return contour
    /\ Forall (fun p => Vector3.z p = z) contour.
Proof.
  intros Hpos. unfold generateSliceContour, positionArray.
  rewrite Hpos. simpl.
  match goal with
  | |- context [(2 <? List.length ?c)%nat] =>
      assert (Hc : Forall (fun p => Vector3.z p = z) c); [|set (contour := c) in *]
  end.
  { destruct (BufferGeometry.index geometry) as [indices|]; [|constructor].
    apply (fold_left_app_Forall (fun p => Vector3.z p = z)
             (fun i => getTriangleZPlaneIntersections _ _ _ z (1 # 10))).
    - constructor.
    - intros i _. apply getTriangleZPlaneIntersections_on_plane. }
  destruct (2 <? List.length contour)%nat; eexists; split; try reflexivity.
  - eapply Permutation_Forall; [apply sortContourPoints_Permutation | exact Hc].
  - exact Hc.
Qed.

Lemma generateSliceContour_nonindexed geometry positions z :
  BufferGeometry.position geometry = Some positions ->
  BufferGeometry.index geometry = None ->
  generateSliceContour sqrt geometry z = Return [].
Proof.
  intros Hpos Hidx. unfold generateSliceContour, positionArray.
  rewrite Hpos, Hidx. reflexivity.
Qed.

Lemma cutting_loop geometry positions (zOf : nat -> Q) l : forall acc,
  BufferGeometry.position geometry = Some positions ->
  exists contours,
    Forall2 (fun i contour =>
               generateSliceContour sqrt geometry (zOf i) = Return contour)
            l contours
    /\ fold_left
         (fun (state : outcome (list (list Vector3.t))) (i : nat) =>
            paths <- state ;;
            let z := zOf i in
            slicePath <- generateSliceContour sqrt geometry z ;;
            if (0 <? List.length slicePath)%nat
            then Return (paths ++ [slicePath])
            else Return paths)
         l (Return acc)
       = Return (acc ++ filter (fun c => (0 <? List.length c)%nat) contours).
Proof.
  induction l as [|i l IH]; intros acc Hpos.
  - exists []. split; [constructor|]. simpl. now rewrite app_nil_r.
  - destruct (generateSliceContour_returns geometry positions (zOf i) Hpos)
      as [contour [Hret _]].
    cbn [fold_left bind]. rewrite Hret. cbn [bind].
    destruct (0 <? List.length contour)%nat eqn:Hne.
    + destruct (IH (acc ++ [contour]) Hpos) as [contours [Hall Hfold]].
      exists (contour :: contours). split; [now constructor|].
      etransitivity; [exact Hfold|].
      cbn [filter]. rewrite Hne. now rewrite <- app_assoc.
    + destruct (IH acc Hpos) as [contours [Hall Hfold]].
      exists (contour :: contours). split; [now constructor|].
      etransitivity; [exact Hfold|].
      cbn [filter]. now rewrite Hne.
Qed.

Lemma generateCuttingPaths_box geometry positions min max :
  BufferGeometry.position geometry = Some positions ->
  BufferGeometry.boundingBox geometry = Some (Box3.box min max) ->
  exists contours,
    Forall2 (fun i contour =>
               generateSliceContour sqrt geometry (sliceZ min max i)
               = Return contour)
            (seq 0 (sliceCount + 1)) contours
    /\ generateCuttingPaths sqrt geometry
       = Return (filter (fun c => (0 <? List.length c)%nat) contours).
Proof.
  intros Hpos Hbox. unfold generateCuttingPaths. rewrite Hbox.
  cbn [bind nonNull].
  destruct (cutting_loop geometry positions (sliceZ min max)
              (seq 0 (sliceCount + 1)) [] Hpos) as [contours [Hall Hfold]].
  exists contours. split; [exact Hall|]. exact Hfold.
Qed.

Lemma generateCuttingPaths_empty_box geometry positions :
  BufferGeometry.position geometry = Some positions ->
  BufferGeometry.boundingBox geometry = Some Box3.empty ->
  generateCuttingPaths sqrt geometry = Return [].
Proof.
  intros Hpos Hbox. unfold generateCuttingPaths, positionArray.
  rewrite Hbox, Hpos. reflexivity.
Qed.

Lemma filter_nonempty_spec (contours : list (list Vector3.t)) :
  Forall (fun c => c <> [])
         (filter (fun c => (0 <? List.length c)%nat) contours).
Proof.
  apply Forall_forall. intros c Hc. apply filter_In in Hc.
  destruct Hc as [_ Hlen]. apply Nat.ltb_lt in Hlen.
  intros ->. simpl in Hlen. lia.
Qed.

(** C7: with [sliceCount = 20] the 21 heights [minZ + i * sliceHeight],
    [i = 0 .. 20], are sliced in increasing order of [i], and the result
    is the sequence of the non-empty contours among them: at most 21
    contours, none of them empty. *)
Theorem generateCuttingPaths_samples geometry positions min max :
  BufferGeometry.position geometry = Some positions ->
  BufferGeometry.boundingBox geometry = Some (Box3.box min max) ->
  exists contours paths,
    Forall2 (fun i contour =>
               generateSliceContour sqrt geometry
                 (Vector3.z min
                  + ofNat i * ((Vector3.z max - Vector3.z min) / 20))
               = Return contour)
            [0; 1; 2; 3; 4; 5; 6; 7; 8; 9; 10; 11; 12; 13; 14; 15; 16; 17;
             18; 19; 20]%nat
            contours
    /\ paths = filter (fun c => (0 <? List.length c)%nat) contours
    /\ generateCuttingPaths sqrt geometry = Return paths
    /\ (List.length paths <= 21)%nat
    /\ Forall (fun contour => contour <> []) paths.
Proof.
  intros Hpos Hbox.
  destruct (generateCuttingPaths_box geometry positions min max Hpos Hbox)
    as [contours [Hall Hret]].
  exists contours, (filter (fun c => (0 <? List.length c)%nat) contours).
  split; [exact Hall|]. split; [reflexivity|]. split; [exact Hret|]. split.
  - apply Forall2_length in Hall. simpl in Hall.
    pose proof (filter_length_le (fun c => (0 <? List.length c)%nat) contours).
    lia.
  - apply filter_nonempty_spec.
Qed.

(** C3: a mesh without an index array has an empty contour at every
    height, and [generateCuttingPaths] returns no cutting path for it. *)
Theorem nonindexed_mesh_has_no_cutting_paths geometry positions boundingBox :
  BufferGeometry.index geometry = None ->
  BufferGeometry.position geometry = Some positions ->
  BufferGeometry.boundingBox geometry = Some boundingBox ->
  (forall z, generateSliceContour sqrt geometry z = Return [])
  /\ generateCuttingPaths sqrt geometry = Return [].
Proof.
  intros Hidx Hpos Hbox. split.
  - intros z. now apply generateSliceContour_nonindexed with positions.
  - destruct boundingBox as [|min max].
    + now apply generateCuttingPaths_empty_box with positions.
    + destruct (generateCuttingPaths_box geometry positions min max Hpos Hbox)
        as [contours [Hall Hret]].
      rewrite Hret. f_equal.
      clear Hret. induction Hall as [|i contour l contours Hi _ IH]; simpl.
      * reflexivity.
      * rewrite (generateSliceContour_nonindexed geometry positions _ Hpos Hidx)
          in Hi.
        injection Hi as <-. simpl. exact IH.
Qed.

(** C9: every point of a contour lies exactly at the height of the plane
    that produced it, so the points of one contour share their Z, which
    for a cutting path is one of the sampled heights; and stitching only
    reorders points. *)
Theorem contour_points_lie_on_their_plane geometry positions boundingBox :
  BufferGeometry.position geometry = Some positions ->
  BufferGeometry.boundingBox geometry = Some boundingBox ->
  (forall z, exists contour,
      generateSliceContour sqrt geometry z = Return contour
      /\ Forall (fun p => Vector3.z p = z) contour)
  /\ (exists paths,
        generateCuttingPaths sqrt geometry = Return paths
        /\ Forall (fun contour =>
                     exists z,
                       Forall (fun p => Vector3.z p = z) contour
                       /\ match boundingBox with
                          | Box3.box min max =>
                              exists i, (i <= sliceCount)%nat
                                        /\ z = sliceZ min max i
                          | Box3.empty => False
                          end)
                  paths)
  /\ (forall points p,
        In p (sortContourPoints sqrt points) <-> In p points).
Proof.
  intros Hpos Hbox. split; [|split].
  - intros z. now apply generateSliceContour_returns with positions.
  - destruct boundingBox as [|min max].
    + exists []. split; [|constructor].
      now apply generateCuttingPaths_empty_box with positions.
    + destruct (generateCuttingPaths_box geometry positions min max Hpos Hbox)
        as [contours [Hall Hret]].
      eexists. split; [exact Hret|].
      apply Forall_forall. intros contour Hin.
      apply filter_In in Hin. destruct Hin as [Hin _].
      destruct (Forall2_In_right _ _ _ _ Hall Hin) as [i [Hi Hslice]].
      exists (sliceZ min max i). split.
      * destruct (generateSliceContour_returns geometry positions
                    (sliceZ min max i) Hpos) as [contour' [Hret' Hz]].
        rewrite Hret' in Hslice. injection Hslice as <-. exact Hz.
      * exists i. split; [|reflexivity].
        apply in_seq in Hi. unfold sliceCount in *. lia.
  - intros points p. split; intros Hin.
    + eapply Permutation_in; [|exact Hin].
      apply Permutation_sym, sortContourPoints_Permutation.
    + eapply Permutation_in; [|exact Hin].
      apply sortContourPoints_Permutation.
Qed.

End Stitching.

(** ** Triangles of a mesh: the index loops against the triangle list *)

Lemma chunk3_ind {A : Type} (P : list A -> Prop) :
  P [] ->
  (forall a b c rest, P rest -> P (a :: b :: c :: rest)) ->
  forall l, (List.length l mod 3 = 0)%nat -> P l.
Proof.
  intros Hnil Hstep l.
  remember (List.length l) as n eqn:Hn. revert l Hn.
  induction n as [n IH] using lt_wf_ind. intros l Hn Hmod.
  destruct l as [|a [|b [|c rest]]]; simpl in Hn; subst n.
  - exact Hnil.
  - discriminate Hmod.
  - discriminate Hmod.
  - apply Hstep. apply (IH (List.length rest)); [lia|reflexivity|].
    replace (S (S (S (List.length rest)))) with (List.length rest + 1 * 3)%nat
      in Hmod by lia.
    now rewrite Nat.Div0.mod_add in Hmod.
Qed.

Lemma chunk9_ind {A : Type} (P : list A -> Prop) :
  P [] ->
  (forall a1 a2 a3 a4 a5 a6 a7 a8 a9 rest,
      P rest -> P (a1 :: a2 :: a3 :: a4 :: a5 :: a6 :: a7 :: a8 :: a9 :: rest)) ->
  forall l, (List.length l mod 9 = 0)%nat -> P l.
Proof.
  intros Hnil Hstep l.
  remember (List.length l) as n eqn:Hn. revert l Hn.
  induction n as [n IH] using lt_wf_ind. intros l Hn Hmod.
  destruct l as [|a1 [|a2 [|a3 [|a4 [|a5 [|a6 [|a7 [|a8 [|a9 rest]]]]]]]]];
    simpl in Hn; subst n; try discriminate Hmod.
  - exact Hnil.
  - apply Hstep. apply (IH (List.length rest)); [lia|reflexivity|].
    replace (S (S (S (S (S (S (S (S (S (List.length rest))))))))))
      with (List.length rest + 1 * 9)%nat in Hmod by lia.
    now rewrite Nat.Div0.mod_add in Hmod.
Qed.

Lemma range_step stop step :
  (0 < step)%nat ->
  range (step + stop) step = 0%nat :: map (fun i => (step + i)%nat) (range stop step).
Proof.
  intros Hstep. unfold range.
  replace ((step + stop + (step - 1)) / step)%nat
    with (S ((stop + (step - 1)) / step)).
  - simpl. f_equal. rewrite <- seq_shift, !map_map.
    apply map_ext. intros k. simpl. reflexivity.
  - replace (step + stop + (step - 1))%nat
      with (1 * step + (stop + (step - 1)))%nat by lia.
    rewrite Nat.div_add_l by lia. reflexivity.
Qed.

Lemma fold_left_map_index {A B C : Type} (f : A -> C -> A) (g : B -> C) l :
  forall acc, fold_left f (map g l) acc = fold_left (fun a b => f a (g b)) l acc.
Proof. induction l as [|b l IH]; simpl; intros acc; [reflexivity | apply IH]. Qed.

Lemma fold_left_pointwise {A B : Type} (f g : A -> B -> A) l :
  (forall a b, f a b = g a b) ->
  forall acc, fold_left f l acc = fold_left g l acc.
Proof.
  intros Hfg. induction l as [|b l IH]; simpl; intros acc; [reflexivity|].
  rewrite Hfg. apply IH.
Qed.

Lemma sum_app l1 l2 : sum (l1 ++ l2) == sum l1 + sum l2.
Proof.
  induction l1 as [|q l1 IH]; simpl.
  - ring.
  - rewrite IH. ring.
Qed.

(** The vertex read at offset [3k] is the [k]-th vertex of the array. *)
Lemma vertexAt_vertex : forall k positions,
  (k < List.length positions / 3)%nat ->
  vertexAt positions (times (Some k) 3) = vertex positions k.
Proof.
  unfold vertex.
  induction k as [|k IH]; intros positions Hk;
    (destruct positions as [|x [|y [|z rest]]];
     try (simpl in Hk; exfalso; lia)).
  - reflexivity.
  - assert (Hlen : (List.length (x :: y :: z :: rest) / 3
                    = S (List.length rest / 3))%nat).
    { change (List.length (x :: y :: z :: rest))
        with (1 * 3 + List.length rest)%nat.
      rewrite Nat.div_add_l by lia. reflexivity. }
    rewrite Hlen in Hk.
    change (vertexAt (x :: y :: z :: rest) (times (Some (S k)) 3))
      with (vertexAt rest (times (Some k) 3)).
    simpl nth. apply IH. lia.
Qed.

Section Reductions.

(** The quantity accumulated per triangle. *)
Variable term : Vector3.t -> Vector3.t -> Vector3.t -> Q.

Lemma soup_loop positions :
  (List.length positions mod 9 = 0)%nat ->
  forall acc,
    fold_left
      (fun (acc : Q) (i : nat) =>
         acc + term (vertexAt positions (Some i))
                    (vertexAt positions (Some (i + 3)%nat))
                    (vertexAt positions (Some (i + 6)%nat)))
      (range (List.length positions) 9) acc
    == acc + sum (map (termOf term) (soupTriangles positions)).
Proof.
  intros Hmod. pattern positions. apply chunk9_ind; [| |exact Hmod].
  - intros acc. simpl. ring.
  - intros x1 y1 z1 x2 y2 z2 x3 y3 z3 rest IH acc.
    change (List.length (x1 :: y1 :: z1 :: x2 :: y2 :: z2 :: x3 :: y3 :: z3 :: rest))
      with (9 + List.length rest)%nat.
    rewrite range_step by lia.
    cbn [fold_left]. rewrite fold_left_map_index.
    rewrite (fold_left_pointwise _
               (fun (acc : Q) (i : nat) =>
                  acc + term (vertexAt rest (Some i))
                             (vertexAt rest (Some (i + 3)%nat))
                             (vertexAt rest (Some (i + 6)%nat))))
      by (intros; reflexivity).
    rewrite IH. cbn [soupTriangles map sum termOf].
    change (vertexAt _ (Some 0%nat)) with (Vector3.new x1 y1 z1).
    change (vertexAt _ (Some (0 + 3)%nat)) with (Vector3.new x2 y2 z2).
    change (vertexAt _ (Some (0 + 6)%nat)) with (Vector3.new x3 y3 z3).
    ring.
Qed.

Lemma indexed_loop positions indices :
  (List.length indices mod 3 = 0)%nat ->
  Forall (fun k => (k < List.length positions / 3)%nat) indices ->
  forall acc,
    fold_left
      (fun (acc : Q) (i : nat) =>
         acc + term (vertexAt positions (times (elem indices (Some i)) 3))
                    (vertexAt positions (times (elem indices (Some (i + 1)%nat)) 3))
                    (vertexAt positions (times (elem indices (Some (i + 2)%nat)) 3)))
      (range (List.length indices) 3) acc
    == acc + sum (map (termOf term) (indexedTriangles positions indices)).
Proof.
  intros Hmod. pattern indices. apply chunk3_ind; [| |exact Hmod].
  - intros _ acc. simpl. ring.
  - intros a b c rest IH Hrange acc.
    inversion Hrange as [|? ? Ha Hrange1]; subst.
    inversion Hrange1 as [|? ? Hb Hrange2]; subst.
    inversion Hrange2 as [|? ? Hc Hrange3]; subst.
    change (List.length (a :: b :: c :: rest)) with (3 + List.length rest)%nat.
    rewrite range_step by lia.
    cbn [fold_left]. rewrite fold_left_map_index.
    rewrite (fold_left_pointwise _
               (fun (acc : Q) (i : nat) =>
                  acc + term (vertexAt positions (times (elem rest (Some i)) 3))
                             (vertexAt positions (times (elem rest (Some (i + 1)%nat)) 3))
                             (vertexAt positions (times (elem rest (Some (i + 2)%nat)) 3))))
      by (intros; reflexivity).
    rewrite (IH Hrange3).
    unfold indexedTriangles. cbn [indexTriples map sum termOf].
    change (elem (a :: b :: c :: rest) (Some 0%nat)) with (Some a).
    change (elem (a :: b :: c :: rest) (Some (0 + 1)%nat)) with (Some b).
    change (elem (a :: b :: c :: rest) (Some (0 + 2)%nat)) with (Some c).
    rewrite !vertexAt_vertex by assumption.
    ring.
Qed.

End Reductions.

(** ** Volume *)

Lemma calculateVolume_sum geometry positions :
  BufferGeometry.position geometry = Some positions ->
  wellFormed positions (BufferGeometry.index geometry) ->
  exists volume,
    calculateVolume geometry = Return volume
    /\ volume
       == Qabs (sum (map signedVolume
                       (triangles positions (BufferGeometry.index geometry)))).
Proof.
  intros Hpos Hwf. unfold calculateVolume, positionArray.
  rewrite Hpos. cbn [nonNull bind]. eexists. split; [reflexivity|].
  unfold Math.abs. apply Qabs_wd.
  unfold wellFormed, triangles in *.
  destruct (BufferGeometry.index geometry) as [indices|].
  - destruct Hwf as [_ [Hmod Hrange]].
    rewrite (indexed_loop
               (fun v1 v2 v3 => Vector3.dot v1 (Vector3.cross v2 v3) / 6)
               positions indices Hmod Hrange).
    rewrite Qplus_0_l. reflexivity.
  - rewrite (soup_loop
               (fun v1 v2 v3 => Vector3.dot v1 (Vector3.cross v2 v3) / 6)
               positions Hwf).
    rewrite Qplus_0_l. reflexivity.
Qed.

(** C4: on a well-formed mesh [calculateVolume] returns the absolute
    value of the sum, over the triangles (a, b, c) of the mesh, of
    [dot(a, cross(b, c)) / 6]; the result is never negative. *)
Theorem calculateVolume_abs_of_signed_sum geometry positions :
  BufferGeometry.position geometry = Some positions ->
  wellFormed positions (BufferGeometry.index geometry) ->
  exists volume,
    calculateVolume geometry = Return volume
    /\ volume
       == Qabs (sum (map (fun t : Triangle =>
                            let '(a, b, c) := t in
                            Vector3.dot a (Vector3.cross b c) / 6)
                         (triangles positions (BufferGeometry.index geometry))))
    /\ 0 <= volume.
Proof.
  intros Hpos Hwf.
  destruct (calculateVolume_sum geometry positions Hpos Hwf)
    as [volume [Hret Hsum]].
  exists volume. split; [exact Hret|]. split; [exact Hsum|].
  rewrite Hsum. apply Qabs_nonneg.
Qed.

(** ** Surface area *)

Section SurfaceArea.

Variable sqrt : Q -> Q.

Lemma calculateSurfaceArea_sum geometry positions :
  BufferGeometry.position geometry = Some positions ->
  wellFormed positions (BufferGeometry.index geometry) ->
  exists area,
    calculateSurfaceArea sqrt geometry = Return area
    /\ area
       == sum (map (triangleArea sqrt)
                 (triangles positions (BufferGeometry.index geometry))).
Proof.
  intros Hpos Hwf. unfold calculateSurfaceArea, positionArray.
  rewrite Hpos. cbn [nonNull bind]. eexists. split; [reflexivity|].
  set (term := fun v1 v2 v3 : Vector3.t =>
                 Vector3.length sqrt
                   (Vector3.cross (Vector3.sub (Vector3.clone v2) v1)
                                  (Vector3.sub (Vector3.clone v3) v1))
                 / 2).
  assert (Hterm : forall l, map (termOf term) l = map (triangleArea sqrt) l).
  { intros l. apply map_ext. intros [[a b] c]. reflexivity. }
  unfold wellFormed, triangles in *.
  destruct (BufferGeometry.index geometry) as [indices|].
  - destruct Hwf as [_ [Hmod Hrange]].
    transitivity (0 + sum (map (termOf term) (indexedTriangles positions indices))).
    + exact (indexed_loop term positions indices Hmod Hrange 0).
    + rewrite Qplus_0_l, Hterm. reflexivity.
  - transitivity (0 + sum (map (termOf term) (soupTriangles positions))).
    + exact (soup_loop term positions Hwf 0).
    + rewrite Qplus_0_l, Hterm. reflexivity.
Qed.

Lemma soupTriangles_app p1 p2 :
  (List.length p1 mod 9 = 0)%nat ->
  soupTriangles (p1 ++ p2) = soupTriangles p1 ++ soupTriangles p2.
Proof.
  intros Hmod. pattern p1. apply chunk9_ind; [| |exact Hmod].
  - reflexivity.
  - intros x1 y1 z1 x2 y2 z2 x3 y3 z3 rest IH. simpl. now rewrite IH.
Qed.

Lemma vertices_app p1 p2 :
  (List.length p1 mod 3 = 0)%nat ->
  BufferGeometry.vertices (p1 ++ p2)
  = BufferGeometry.vertices p1 ++ BufferGeometry.vertices p2.
Proof.
  intros Hmod. pattern p1. apply chunk3_ind; [| |exact Hmod].
  - reflexivity.
  - intros x y z rest IH. simpl. now rewrite IH.
Qed.

Lemma vertices_length p :
  (List.length p mod 3 = 0)%nat ->
  List.length (BufferGeometry.vertices p) = (List.length p / 3)%nat.
Proof.
  intros Hmod. pattern p. apply chunk3_ind; [| |exact Hmod].
  - reflexivity.
  - intros x y z rest IH.
    change (List.length (x :: y :: z :: rest)) with (1 * 3 + List.length rest)%nat.
    rewrite Nat.div_add_l by lia. simpl. now rewrite IH.
Qed.

Lemma indexTriples_app i1 i2 :
  (List.length i1 mod 3 = 0)%nat ->
  indexTriples (i1 ++ i2) = indexTriples i1 ++ indexTriples i2.
Proof.
  intros Hmod. pattern i1. apply chunk3_ind; [| |exact Hmod].
  - reflexivity.
  - intros a b c rest IH. simpl. now rewrite IH.
Qed.

Lemma indexTriples_map (f : nat -> nat) indices :
  (List.length indices mod 3 = 0)%nat ->
  indexTriples (map f indices)
  = map (fun t : nat * nat * nat => let '(a, b, c) := t in (f a, f b, f c))
        (indexTriples indices).
Proof.
  intros Hmod. pattern indices. apply chunk3_ind; [| |exact Hmod].
  - reflexivity.
  - intros a b c rest IH. simpl. now rewrite IH.
Qed.

Lemma indexTriples_In indices a b c :
  (List.length indices mod 3 = 0)%nat ->
  In (a, b, c) (indexTriples indices) ->
  In a indices /\ In b indices /\ In c indices.
Proof.
  intros Hmod. pattern indices. apply chunk3_ind; [| |exact Hmod].
  - simpl. contradiction.
  - intros a' b' c' rest IH [Heq|Hin].
    + injection Heq as Ha Hb Hc. subst. simpl. tauto.
    + destruct (IH Hin) as [Ha [Hb Hc]]. simpl. tauto.
Qed.

Lemma vertex_app_left p1 p2 k :
  (List.length p1 mod 3 = 0)%nat ->
  (k < List.length p1 / 3)%nat ->
  vertex (p1 ++ p2) k = vertex p1 k.
Proof.
  intros Hmod Hk. unfold vertex. rewrite vertices_app by exact Hmod.
  apply app_nth1. now rewrite vertices_length.
Qed.

Lemma vertex_app_right p1 p2 k :
  (List.length p1 mod 3 = 0)%nat ->
  vertex (p1 ++ p2) (k + List.length p1 / 3) = vertex p2 k.
Proof.
  intros Hmod. unfold vertex. rewrite vertices_app by exact Hmod.
  rewrite <- (vertices_length p1 Hmod), Nat.add_comm.
  apply app_nth2_plus.
Qed.

Lemma indexedTriangles_concat p1 p2 i1 i2 :
  wellFormed p1 (Some i1) -> wellFormed p2 (Some i2) ->
  indexedTriangles (p1 ++ p2)
    (i1 ++ map (fun k => (k + List.length p1 / 3)%nat) i2)
  = indexedTriangles p1 i1 ++ indexedTriangles p2 i2.
Proof.
  intros [Hp1 [Hi1 Hr1]] [Hp2 [Hi2 Hr2]]. unfold indexedTriangles.
  rewrite indexTriples_app by exact Hi1. rewrite map_app.
  apply (f_equal2 (@app Triangle)).
  - apply map_ext_in. intros [[a b] c] Hin.
    destruct (indexTriples_In i1 a b c Hi1 Hin) as [Ha [Hb Hc]].
    rewrite Forall_forall in Hr1.
    now rewrite !vertex_app_left by auto.
  - rewrite indexTriples_map by exact Hi2. rewrite map_map.
    apply map_ext. intros [[a b] c].
    now rewrite !vertex_app_right by exact Hp1.
Qed.

Lemma wellFormed_concat p1 p2 i1 i2 :
  wellFormed p1 (Some i1) -> wellFormed p2 (Some i2) ->
  wellFormed (p1 ++ p2)
    (Some (i1 ++ map (fun k => (k + List.length p1 / 3)%nat) i2)).
Proof.
  intros [Hp1 [Hi1 Hr1]] [Hp2 [Hi2 Hr2]]. unfold wellFormed.
  rewrite !length_app, length_map.
  pose proof (Nat.div_mod_eq (List.length p1) 3) as E1.
  pose proof (Nat.div_mod_eq (List.length p2) 3) as E2.
  pose proof (Nat.div_mod_eq (List.length p1 + List.length p2) 3) as E3.
  assert (Hp : ((List.length p1 + List.length p2) mod 3 = 0)%nat).
  { rewrite Nat.Div0.add_mod, Hp1, Hp2. reflexivity. }
  split; [exact Hp|]. split.
  - rewrite Nat.Div0.add_mod, Hi1, Hi2. reflexivity.
  - apply Forall_app. split.
    + eapply Forall_impl; [|exact Hr1]. cbv beta. intros k Hk. lia.
    + apply Forall_map. eapply Forall_impl; [|exact Hr2]. cbv beta.
      intros k Hk. lia.
Qed.

(** C8: the surface area of the mesh obtained by concatenating the
    triangles of two meshes is the sum of the two surface areas. *)
Theorem calculateSurfaceArea_additive g1 g2 g p1 p2 :
  BufferGeometry.position g1 = Some p1 ->
  BufferGeometry.position g2 = Some p2 ->
  wellFormed p1 (BufferGeometry.index g1) ->
  wellFormed p2 (BufferGeometry.index g2) ->
  concatMeshes g1 g2 = Some g ->
  exists area1 area2 area,
    calculateSurfaceArea sqrt g1 = Return area1
    /\ calculateSurfaceArea sqrt g2 = Return area2
    /\ calculateSurfaceArea sqrt g = Return area
    /\ area == area1 + area2.
Proof.
  intros Hp1 Hp2 Hwf1 Hwf2 Hcat.
  destruct (calculateSurfaceArea_sum g1 p1 Hp1 Hwf1) as [area1 [Hret1 Hsum1]].
  destruct (calculateSurfaceArea_sum g2 p2 Hp2 Hwf2) as [area2 [Hret2 Hsum2]].
  unfold concatMeshes in Hcat. rewrite Hp1, Hp2 in Hcat.
  destruct (BufferGeometry.index g1) as [i1|], (BufferGeometry.index g2) as [i2|];
    try discriminate Hcat; injection Hcat as <-.
  - destruct (calculateSurfaceArea_sum
                (BufferGeometry.make (Some (p1 ++ p2))
                   (Some (i1 ++ map (fun k => (k + List.length p1 / 3)%nat) i2))
                   None)
                (p1 ++ p2) eq_refl (wellFormed_concat p1 p2 i1 i2 Hwf1 Hwf2))
      as [area [Hret Hsum]].
    exists area1, area2, area. repeat split; try assumption.
    rewrite Hsum, Hsum1, Hsum2. cbn [BufferGeometry.index triangles].
    rewrite indexedTriangles_concat by assumption.
    rewrite map_app. apply sum_app.
  - assert (Hwf : wellFormed (p1 ++ p2) None).
    { unfold wellFormed in *. rewrite length_app, Nat.Div0.add_mod, Hwf1, Hwf2.
      reflexivity. }
    destruct (calculateSurfaceArea_sum
                (BufferGeometry.make (Some (p1 ++ p2)) None None)
                (p1 ++ p2) eq_refl Hwf)
      as [area [Hret Hsum]].
    exists area1, area2, area. repeat split; try assumption.
    rewrite Hsum, Hsum1, Hsum2. cbn [BufferGeometry.index triangles].
    rewrite soupTriangles_app by exact Hwf1.
    rewrite map_app. apply sum_app.
Qed.

End SurfaceArea.

(** ** Bounding boxes and the centring/scaling step *)

Lemma vertices_mapVertices f : forall n positions,
  (List.length positions <= n)%nat ->
  BufferGeometry.vertices (BufferGeometry.mapVertices f positions)
  = map (fun v => Vector3.clone (f v)) (BufferGeometry.vertices positions).
Proof.
  induction n as [|n IH]; intros positions Hlen;
    (destruct positions as [|x [|y [|z rest]]]; simpl in *;
     try reflexivity; try lia).
  unfold Vector3.clone at 1. f_equal. apply IH. lia.
Qed.

Lemma fold_Qmin_le l : forall a, fold_left Qmin l a <= a.
Proof.
  induction l as [|q l IH]; simpl; intros a.
  - apply Qle_refl.
  - eapply Qle_trans; [apply IH | apply Q.le_min_l].
Qed.

Lemma fold_Qmax_ge l : forall a, a <= fold_left Qmax l a.
Proof.
  induction l as [|q l IH]; simpl; intros a.
  - apply Qle_refl.
  - eapply Qle_trans; [apply Q.le_max_l | apply IH].
Qed.

Lemma Qmin_affine t s a b a' :
  0 < s -> a' == (a + t) * s ->
  Qmin a' ((b + t) * s) == (Qmin a b + t) * s.
Proof.
  intros Hs Ha.
  destruct (Q.min_spec a b) as [[H1 H2]|[H1 H2]];
    destruct (Q.min_spec a' ((b + t) * s)) as [[H3 H4]|[H3 H4]];
    rewrite H2, H4; nra.
Qed.

Lemma Qmax_affine t s a b a' :
  0 < s -> a' == (a + t) * s ->
  Qmax a' ((b + t) * s) == (Qmax a b + t) * s.
Proof.
  intros Hs Ha.
  destruct (Q.max_spec a b) as [[H1 H2]|[H1 H2]];
    destruct (Q.max_spec a' ((b + t) * s)) as [[H3 H4]|[H3 H4]];
    rewrite H2, H4; nra.
Qed.

Lemma Qmax_scaled s a b a' b' :
  0 < s -> a' == a * s -> b' == b * s -> Qmax a' b' == Qmax a b * s.
Proof.
  intros Hs Ha Hb.
  destruct (Q.max_spec a b) as [[H1 H2]|[H1 H2]];
    destruct (Q.max_spec a' b') as [[H3 H4]|[H3 H4]];
    rewrite H2, H4; nra.
Qed.

Lemma fold_Qmin_affine t s l : 0 < s -> forall a a',
  a' == (a + t) * s ->
  fold_left Qmin (map (fun q => (q + t) * s) l) a'
  == (fold_left Qmin l a + t) * s.
Proof.
  intros Hs. induction l as [|q l IH]; simpl; intros a a' Ha.
  - exact Ha.
  - apply IH. now apply Qmin_affine.
Qed.

Lemma fold_Qmax_affine t s l : 0 < s -> forall a a',
  a' == (a + t) * s ->
  fold_left Qmax (map (fun q => (q + t) * s) l) a'
  == (fold_left Qmax l a + t) * s.
Proof.
  intros Hs. induction l as [|q l IH]; simpl; intros a a' Ha.
  - exact Ha.
  - apply IH. now apply Qmax_affine.
Qed.

(** The box of a non-empty vertex list, one axis at a time. *)
Lemma expand_fold vs : forall min max,
  fold_left Box3.expandByPoint vs (Box3.box min max)
  = Box3.box
      (Vector3.new
         (fold_left Qmin (map Vector3.x vs) (Vector3.x min))
         (fold_left Qmin (map Vector3.y vs) (Vector3.y min))
         (fold_left Qmin (map Vector3.z vs) (Vector3.z min)))
      (Vector3.new
         (fold_left Qmax (map Vector3.x vs) (Vector3.x max))
         (fold_left Qmax (map Vector3.y vs) (Vector3.y max))
         (fold_left Qmax (map Vector3.z vs) (Vector3.z max))).
Proof.
  induction vs as [|v vs IH]; intros min max.
  - destruct min, max. reflexivity.
  - cbn [fold_left Box3.expandByPoint]. rewrite IH. reflexivity.
Qed.

Lemma Qltb_false_of_le a b : a <= b -> Qltb b a = false.
Proof.
  intros Hle. unfold Qltb. apply Bool.negb_false_iff.
  now apply Qle_bool_iff.
Qed.

Lemma centerAndScale_unfold positions index boundingBox :
  centerAndScale (BufferGeometry.make (Some positions) index boundingBox)
  = let box := BufferGeometry.setFromBufferAttribute positions in
    let center := Box3.getCenter box in
    let scale := 100 / maxDimension box in
    let positions' :=
      BufferGeometry.mapVertices
        (fun v => Vector3.new (Vector3.x v * scale) (Vector3.y v * scale)
                              (Vector3.z v * scale))
        (BufferGeometry.mapVertices
           (fun v => Vector3.new (Vector3.x v + - Vector3.x center)
                                 (Vector3.y v + - Vector3.y center)
                                 (Vector3.z v + - Vector3.z center))
           positions) in
    Return (BufferGeometry.make (Some positions') index
              (Some (BufferGeometry.setFromBufferAttribute positions'))).
Proof. reflexivity. Qed.

Lemma box_of_vertices v0 vs :
  fold_left Box3.expandByPoint (v0 :: vs) Box3.makeEmpty
  = Box3.box
      (Vector3.new
         (fold_left Qmin (map Vector3.x vs) (Vector3.x v0))
         (fold_left Qmin (map Vector3.y vs) (Vector3.y v0))
         (fold_left Qmin (map Vector3.z vs) (Vector3.z v0)))
      (Vector3.new
         (fold_left Qmax (map Vector3.x vs) (Vector3.x v0))
         (fold_left Qmax (map Vector3.y vs) (Vector3.y v0))
         (fold_left Qmax (map Vector3.z vs) (Vector3.z v0))).
Proof. cbn [fold_left Box3.expandByPoint Box3.makeEmpty]. apply expand_fold. Qed.

Lemma box_of_vertices_not_empty v0 vs :
  Box3.isEmpty (fold_left Box3.expandByPoint (v0 :: vs) Box3.makeEmpty) = false.
Proof.
  rewrite box_of_vertices. unfold Box3.isEmpty. cbn [Vector3.x Vector3.y Vector3.z].
  rewrite !Qltb_false_of_le; [reflexivity| | |];
    (eapply Qle_trans; [apply fold_Qmin_le | apply fold_Qmax_ge]).
Qed.

Lemma normalized_box v0 vs :
  let B := fold_left Box3.expandByPoint (v0 :: vs) Box3.makeEmpty in
  let c := Box3.getCenter B in
  let s := 100 / maxDimension B in
  let h := fun v => Vector3.new ((Vector3.x v + - Vector3.x c) * s)
                                ((Vector3.y v + - Vector3.y c) * s)
                                ((Vector3.z v + - Vector3.z c) * s) in
  let B' := fold_left Box3.expandByPoint (map h (v0 :: vs)) Box3.makeEmpty in
  0 < maxDimension B ->
  Vector3.x (Box3.getCenter B') == 0
  /\ Vector3.y (Box3.getCenter B') == 0
  /\ Vector3.z (Box3.getCenter B') == 0
  /\ maxDimension B' == 100.
Proof.
  intros B c s h B' Hmax.
  assert (Hs : 0 < s).
  { unfold s. apply Qlt_shift_div_l; [exact Hmax | lra]. }
  assert (HMs : maxDimension B * s == 100).
  { unfold s. field. intros E. rewrite E in Hmax. lra. }
  (* the box before *)
  pose proof (box_of_vertices_not_empty v0 vs) as HneB. fold B in HneB.
  pose proof (box_of_vertices v0 vs) as HB. fold B in HB.
  set (lox := fold_left Qmin (map Vector3.x vs) (Vector3.x v0)) in *.
  set (loy := fold_left Qmin (map Vector3.y vs) (Vector3.y v0)) in *.
  set (loz := fold_left Qmin (map Vector3.z vs) (Vector3.z v0)) in *.
  set (hix := fold_left Qmax (map Vector3.x vs) (Vector3.x v0)) in *.
  set (hiy := fold_left Qmax (map Vector3.y vs) (Vector3.y v0)) in *.
  set (hiz := fold_left Qmax (map Vector3.z vs) (Vector3.z v0)) in *.
  assert (Hc : c = Vector3.new ((lox + hix) * (1 # 2)) ((loy + hiy) * (1 # 2))
                               ((loz + hiz) * (1 # 2))).
  { unfold c, Box3.getCenter. rewrite HneB, HB. reflexivity. }
  assert (HM : maxDimension B = Qmax (Qmax (hix - lox) (hiy - loy)) (hiz - loz)).
  { unfold maxDimension, Box3.getSize. rewrite HneB, HB. reflexivity. }
  (* the box after *)
  pose proof (box_of_vertices_not_empty (h v0) (map h vs)) as HneB'.
  pose proof (box_of_vertices (h v0) (map h vs)) as HB'.
  change (fold_left Box3.expandByPoint (h v0 :: map h vs) Box3.makeEmpty)
    with B' in HneB', HB'.
  rewrite !map_map in HB'.
  set (lox' := fold_left Qmin (map (fun v => Vector3.x (h v)) vs) (Vector3.x (h v0))) in *.
  set (loy' := fold_left Qmin (map (fun v => Vector3.y (h v)) vs) (Vector3.y (h v0))) in *.
  set (loz' := fold_left Qmin (map (fun v => Vector3.z (h v)) vs) (Vector3.z (h v0))) in *.
  set (hix' := fold_left Qmax (map (fun v => Vector3.x (h v)) vs) (Vector3.x (h v0))) in *.
  set (hiy' := fold_left Qmax (map (fun v => Vector3.y (h v)) vs) (Vector3.y (h v0))) in *.
  set (hiz' := fold_left Qmax (map (fun v => Vector3.z (h v)) vs) (Vector3.z (h v0))) in *.
  assert (Hlox : lox' == (lox + - Vector3.x c) * s).
  { unfold lox', lox.
    replace (map (fun v => Vector3.x (h v)) vs)
      with (map (fun q => (q + - Vector3.x c) * s) (map Vector3.x vs))
      by (rewrite map_map; reflexivity).
    apply fold_Qmin_affine; [exact Hs | reflexivity]. }
  assert (Hloy : loy' == (loy + - Vector3.y c) * s).
  { unfold loy', loy.
    replace (map (fun v => Vector3.y (h v)) vs)
      with (map (fun q => (q + - Vector3.y c) * s) (map Vector3.y vs))
      by (rewrite map_map; reflexivity).
    apply fold_Qmin_affine; [exact Hs | reflexivity]. }
  assert (Hloz : loz' == (loz + - Vector3.z c) * s).
  { unfold loz', loz.
    replace (map (fun v => Vector3.z (h v)) vs)
      with (map (fun q => (q + - Vector3.z c) * s) (map Vector3.z vs))
      by (rewrite map_map; reflexivity).
    apply fold_Qmin_affine; [exact Hs | reflexivity]. }
  assert (Hhix : hix' == (hix + - Vector3.x c) * s).
  { unfold hix', hix.
    replace (map (fun v => Vector3.x (h v)) vs)
      with (map (fun q => (q + - Vector3.x c) * s) (map Vector3.x vs))
      by (rewrite map_map; reflexivity).
    apply fold_Qmax_affine; [exact Hs | reflexivity]. }
  assert (Hhiy : hiy' == (hiy + - Vector3.y c) * s).
  { unfold hiy', hiy.
    replace (map (fun v => Vector3.y (h v)) vs)
      with (map (fun q => (q + - Vector3.y c) * s) (map Vector3.y vs))
      by (rewrite map_map; reflexivity).
    apply fold_Qmax_affine; [exact Hs | reflexivity]. }
  assert (Hhiz : hiz' == (hiz + - Vector3.z c) * s).
  { unfold hiz', hiz.
    replace (map (fun v => Vector3.z (h v)) vs)
      with (map (fun q => (q + - Vector3.z c) * s) (map Vector3.z vs))
      by (rewrite map_map; reflexivity).
    apply fold_Qmax_affine; [exact Hs | reflexivity]. }
  assert (Hc' : Box3.getCenter B'
                = Vector3.new ((lox' + hix') * (1 # 2)) ((loy' + hiy') * (1 # 2))
                              ((loz' + hiz') * (1 # 2))).
  { unfold Box3.getCenter. rewrite HneB', HB'. reflexivity. }
  assert (HM' : maxDimension B'
                = Qmax (Qmax (hix' - lox') (hiy' - loy')) (hiz' - loz')).
  { unfold maxDimension, Box3.getSize. rewrite HneB', HB'. reflexivity. }
  rewrite Hc', HM'. cbn [Vector3.x Vector3.y Vector3.z].
  rewrite Hc in Hlox, Hloy, Hloz, Hhix, Hhiy, Hhiz.
  cbn [Vector3.x Vector3.y Vector3.z] in Hlox, Hloy, Hloz, Hhix, Hhiy, Hhiz.
  repeat split.
  - rewrite Hlox, Hhix. ring.
  - rewrite Hloy, Hhiy. ring.
  - rewrite Hloz, Hhiz. ring.
  - rewrite <- HMs, HM.
    apply Qmax_scaled; [exact Hs | apply Qmax_scaled; [exact Hs | |] |].
    + rewrite Hlox, Hhix. ring.
    + rewrite Hloy, Hhiy. ring.
    + rewrite Hloz, Hhiz. ring.
Qed.

(** C5: when the bounding box of the decoded mesh has a positive largest
    side, the normalization step stores every vertex translated by
    [-center] and then scaled by the one factor [100 / maxDimension] on
    the three axes, keeps the index array, and the bounding box
    recomputed from the stored positions is centred at the origin with
    largest side 100 (exactly, in exact arithmetic). *)
Theorem centerAndScale_normalizes geometry positions :
  BufferGeometry.position geometry = Some positions ->
  0 < maxDimension (BufferGeometry.setFromBufferAttribute positions) ->
  exists normalized positions' box,
    centerAndScale geometry = Return normalized
    /\ BufferGeometry.position normalized = Some positions'
    /\ positions'
       = BufferGeometry.mapVertices
           (fun v =>
              let scale :=
                100 / maxDimension
                        (BufferGeometry.setFromBufferAttribute positions) in
              Vector3.new (Vector3.x v * scale) (Vector3.y v * scale)
                          (Vector3.z v * scale))
           (BufferGeometry.mapVertices
              (fun v =>
                 let center :=
                   Box3.getCenter
                     (BufferGeometry.setFromBufferAttribute positions) in
                 Vector3.new (Vector3.x v + - Vector3.x center)
                             (Vector3.y v + - Vector3.y center)
                             (Vector3.z v + - Vector3.z center))
              positions)
    /\ BufferGeometry.index normalized = BufferGeometry.index geometry
    /\ BufferGeometry.boundingBox normalized = Some box
    /\ box = BufferGeometry.setFromBufferAttribute positions'
    /\ Vector3.x (Box3.getCenter box) == 0
    /\ Vector3.y (Box3.getCenter box) == 0
    /\ Vector3.z (Box3.getCenter box) == 0
    /\ maxDimension box == 100.
Proof.
  intros Hpos Hmax.
  destruct geometry as [pos idx bb]. simpl in Hpos. subst pos.
  rewrite centerAndScale_unfold. cbv zeta.
  eexists _, _, _.
  split; [reflexivity|]. split; [reflexivity|]. split; [reflexivity|].
  split; [reflexivity|]. split; [reflexivity|]. split; [reflexivity|].
  unfold BufferGeometry.setFromBufferAttribute in *.
  rewrite (vertices_mapVertices _ _ _ (le_n _)).
  rewrite (vertices_mapVertices _ _ _ (le_n _)).
  rewrite map_map.
  destruct (BufferGeometry.vertices positions) as [|v0 vs].
  - vm_compute in Hmax. discriminate Hmax.
  - exact (normalized_box v0 vs Hmax).
Qed.

(** The array keeps its length when its vertices are rewritten. *)
Lemma mapVertices_length f : forall n positions,
  (List.length positions <= n)%nat ->
  List.length (BufferGeometry.mapVertices f positions) = List.length positions.
Proof.
  induction n as [|n IH]; intros positions Hlen;
    (destruct positions as [|x [|y [|z rest]]]; simpl in *;
     try reflexivity; try lia).
  rewrite IH by lia. reflexivity.
Qed.

(** ** parseFile *)

Section Parsing.

Variable sqrt : Q -> Q.
Variable stlLoader_parse : list Byte.byte -> outcome BufferGeometry.t.
Variable objLoader_parse : string -> outcome (list BufferGeometry.t).
Variable plyLoader_parse : list Byte.byte -> outcome BufferGeometry.t.
Variable TextDecoder_decode : list Byte.byte -> string.

Local Abbreviation decoded file :=
  (decode stlLoader_parse objLoader_parse plyLoader_parse TextDecoder_decode
     (pop (split "." (toLowerCase (name file)))) (arrayBuffer file)).

Local Abbreviation parse file :=
  (parseFile sqrt stlLoader_parse objLoader_parse plyLoader_parse
     TextDecoder_decode file).

Lemma generateCuttingPaths_returns geometry positions boundingBox :
  BufferGeometry.position geometry = Some positions ->
  BufferGeometry.boundingBox geometry = Some boundingBox ->
  exists paths, generateCuttingPaths sqrt geometry = Return paths.
Proof.
  intros Hpos Hbox. destruct boundingBox as [|min max].
  - exists []. now apply generateCuttingPaths_empty_box with positions.
  - destruct (generateCuttingPaths_box sqrt geometry positions min max Hpos Hbox)
      as [contours [_ Hret]].
    eauto.
Qed.

Lemma calculateVolume_returns geometry positions :
  BufferGeometry.position geometry = Some positions ->
  exists volume, calculateVolume geometry = Return volume.
Proof.
  intros Hpos. unfold calculateVolume, positionArray. rewrite Hpos.
  eexists. reflexivity.
Qed.

Lemma calculateSurfaceArea_returns geometry positions :
  BufferGeometry.position geometry = Some positions ->
  exists area, calculateSurfaceArea sqrt geometry = Return area.
Proof.
  intros Hpos. unfold calculateSurfaceArea, positionArray. rewrite Hpos.
  eexists. reflexivity.
Qed.

(** Once the position attribute is there, nothing in the rest of
    [parseFile] fails: the result is a success carrying the centred and
    scaled geometry. *)
Lemma assemble_success geometry positions :
  BufferGeometry.position geometry = Some positions ->
  exists normalized model,
    centerAndScale geometry = Return normalized
    /\ ParsedModel.geometry model = normalized
    /\ assemble sqrt geometry
       = Return (FileParseResult.make true (Some model) None).
Proof.
  intros Hpos. destruct geometry as [pos idx bb]. simpl in Hpos. subst pos.
  unfold assemble. cbn [BufferGeometry.position].
  rewrite centerAndScale_unfold. cbv zeta.
  match goal with
  | |- context [Return (BufferGeometry.make (Some ?p) idx (Some ?b))] =>
      set (normalized := BufferGeometry.make (Some p) idx (Some b));
      assert (Hp : BufferGeometry.position normalized = Some p) by reflexivity;
      assert (Hb : BufferGeometry.boundingBox normalized = Some b) by reflexivity
  end.
  destruct (calculateVolume_returns normalized _ Hp) as [volume Hv].
  destruct (calculateSurfaceArea_returns normalized _ Hp) as [area Ha].
  destruct (generateCuttingPaths_returns normalized _ _ Hp Hb)
    as [paths Hpaths].
  cbn [bind]. unfold positionArray. rewrite Hp, Hv, Ha, Hpaths, Hb.
  cbn [bind nonNull].
  eexists _, _. split; [reflexivity|]. split; [|reflexivity]. reflexivity.
Qed.

Lemma parseFile_decoded file geometry :
  decoded file = Some (Return geometry) ->
  parse file
  = match assemble sqrt geometry with
    | Return result => result
    | Throw message =>
        FileParseResult.make false None
          (Some ("Failed to parse file: " ++ message)%string)
    | ThrowOther =>
        FileParseResult.make false None
          (Some "Failed to parse file: Unknown error"%string)
    end.
Proof.
  unfold parseFile. intros ->. reflexivity.
Qed.

(** C1 (as the code has it): [parseFile] has no check for a degenerate
    bounding box.  For a decoded mesh whose largest bounding-box side is
    0 the centring/scaling step does not fail, and [parseFile] returns a
    success result whose model carries the geometry that step returned,
    with the index array and the number of stored coordinates of the
    decoded mesh.  Nothing is said about the stored numbers: in
    JavaScript [100 / 0] is [Infinity] and they are NaN. *)
Theorem parseFile_accepts_degenerate_geometry file geometry positions :
  decode stlLoader_parse objLoader_parse plyLoader_parse TextDecoder_decode
    (pop (split "." (toLowerCase (name file)))) (arrayBuffer file)
  = Some (Return geometry) ->
  BufferGeometry.position geometry = Some positions ->
  maxDimension (BufferGeometry.setFromBufferAttribute positions) == 0 ->
  exists normalized model positions',
    centerAndScale geometry = Return normalized
    /\ ParsedModel.geometry model = normalized
    /\ BufferGeometry.position normalized = Some positions'
    /\ List.length positions' = List.length positions
    /\ BufferGeometry.index normalized = BufferGeometry.index geometry
    /\ parseFile sqrt stlLoader_parse objLoader_parse plyLoader_parse
         TextDecoder_decode file
       = FileParseResult.make true (Some model) None.
Proof.
  intros Hdec Hpos _.
  destruct (assemble_success geometry positions Hpos)
    as [normalized [model [Hnorm [Hgeo Hres]]]].
  exists normalized, model.
  destruct geometry as [pos idx bb]. simpl in Hpos. subst pos.
  pose proof Hnorm as Hunfold.
  rewrite centerAndScale_unfold in Hunfold. cbv zeta in Hunfold.
  injection Hunfold as Hshape.
  eexists. split; [exact Hnorm|]. split; [exact Hgeo|].
  rewrite <- Hshape. cbn [BufferGeometry.position BufferGeometry.index].
  split; [reflexivity|]. split; [|split; [reflexivity|]].
  - rewrite !(mapVertices_length _ _ _ (le_n _)). reflexivity.
  - rewrite (parseFile_decoded file _ Hdec), Hres. reflexivity.
Qed.

(** C6 (as the code has it): [parseFile] returns a failure result, with
    no model and the "missing position attributes" error, whenever the
    decoded geometry has no position attribute; a position attribute
    holding zero vertices is not rejected and yields a success result. *)
Theorem parseFile_rejects_missing_position file geometry :
  decode stlLoader_parse objLoader_parse plyLoader_parse TextDecoder_decode
    (pop (split "." (toLowerCase (name file)))) (arrayBuffer file)
  = Some (Return geometry) ->
  (BufferGeometry.position geometry = None ->
   parseFile sqrt stlLoader_parse objLoader_parse plyLoader_parse
     TextDecoder_decode file
   = FileParseResult.make false None
       (Some "Invalid geometry: missing position attributes"%string))
  /\ (BufferGeometry.position geometry = Some [] ->
      exists model,
        parseFile sqrt stlLoader_parse objLoader_parse plyLoader_parse
          TextDecoder_decode file
        = FileParseResult.make true (Some model) None).
Proof.
  intros Hdec. rewrite (parseFile_decoded file geometry Hdec). split.
  - intros Hpos. unfold assemble. rewrite Hpos. reflexivity.
  - intros Hpos.
    destruct (assemble_success geometry [] Hpos)
      as [normalized [model [_ [_ Hres]]]].
    exists model. rewrite Hres. reflexivity.
Qed.

End Parsing.

(** * The claims on sample inputs *)

(** The cube of side 20: after parsing, its largest side is 100, its
    volume 100^3 and its surface area 6 * 100^2, and each of the 21
    heights yields a contour. *)
Example parseFile_cube :
  exists model,
    parseSampleAs cube = FileParseResult.make true (Some model) None
    /\ ParsedModel.boundingBox model
       = Box3.box (Vector3.new (-2000 # 40) (-2000 # 40) (-2000 # 40))
                  (Vector3.new (2000 # 40) (2000 # 40) (2000 # 40))
    /\ volume (ParsedModel.metadata model) == 1000000
    /\ surfaceArea (ParsedModel.metadata model) == 60000
    /\ vertices (ParsedModel.metadata model) == 8
    /\ faces (ParsedModel.metadata model) == 12
    /\ List.length (ParsedModel.cuttingPaths model) = 21%nat.
Proof. eexists. split; [vm_compute; reflexivity|]. vm_compute. repeat split. Qed.

(** The stitching hops to the nearest remaining point each time. *)
Example sortContourPoints_sample :
  sortContourPoints sqrtMilli
    [Vector3.new 0 0 5; Vector3.new 9 0 5; Vector3.new 1 0 5; Vector3.new 8 0 5]
  = [Vector3.new 0 0 5; Vector3.new 1 0 5; Vector3.new 8 0 5; Vector3.new 9 0 5].
Proof. vm_compute. reflexivity. Qed.

(** C1 fails as stated: the mesh made of one point has a bounding box of
    largest side 0, and [parseFile] returns a success result for it. *)
Lemma parseFile_degenerate_triangle_succeeds :
  maxDimension (BufferGeometry.setFromBufferAttribute degeneratePositions) == 0
  /\ FileParseResult.success (parseSampleAs degenerateTriangle) = true
  /\ FileParseResult.error (parseSampleAs degenerateTriangle) = None.
Proof. vm_compute. repeat split. Qed.

Lemma parseFile_accepts_degenerate_geometry_witness :
  exists normalized model positions',
    centerAndScale degenerateTriangle = Return normalized
    /\ ParsedModel.geometry model = normalized
    /\ BufferGeometry.position normalized = Some positions'
    /\ List.length positions' = List.length degeneratePositions
    /\ BufferGeometry.index normalized
       = BufferGeometry.index degenerateTriangle
    /\ parseSampleAs degenerateTriangle
       = FileParseResult.make true (Some model) None.
Proof.
  apply (parseFile_accepts_degenerate_geometry sqrtMilli
           (fun _ => Return degenerateTriangle)
           (fun _ => Return [degenerateTriangle])
           (fun _ => Return degenerateTriangle) (fun _ => EmptyString)
           sampleFile degenerateTriangle degeneratePositions);
    reflexivity.
Defined.

Lemma nonindexed_mesh_has_no_cutting_paths_witness :
  (forall z, generateSliceContour sqrtMilli triangleSoup z = Return [])
  /\ generateCuttingPaths sqrtMilli triangleSoup = Return [].
Proof.
  apply (nonindexed_mesh_has_no_cutting_paths sqrtMilli triangleSoup
           trianglePositions
           (Box3.box (Vector3.new 0 0 0) (Vector3.new 4 3 1)));
    reflexivity.
Defined.

Lemma calculateVolume_abs_of_signed_sum_witness :
  exists volume,
    calculateVolume cube = Return volume
    /\ volume
       == Qabs (sum (map (fun t : Triangle =>
                            let '(a, b, c) := t in
                            Vector3.dot a (Vector3.cross b c) / 6)
                         (triangles cubePositions (Some cubeIndices))))
    /\ 0 <= volume.
Proof.
  apply (calculateVolume_abs_of_signed_sum cube cubePositions).
  - reflexivity.
  - simpl. repeat split; try reflexivity.
    repeat constructor.
Defined.

Lemma centerAndScale_normalizes_witness :
  exists normalized positions' box,
    centerAndScale cube = Return normalized
    /\ BufferGeometry.position normalized = Some positions'
    /\ positions'
       = BufferGeometry.mapVertices
           (fun v =>
              let scale :=
                100 / maxDimension
                        (BufferGeometry.setFromBufferAttribute cubePositions) in
              Vector3.new (Vector3.x v * scale) (Vector3.y v * scale)
                          (Vector3.z v * scale))
           (BufferGeometry.mapVertices
              (fun v =>
                 let center :=
                   Box3.getCenter
                     (BufferGeometry.setFromBufferAttribute cubePositions) in
                 Vector3.new (Vector3.x v + - Vector3.x center)
                             (Vector3.y v + - Vector3.y center)
                             (Vector3.z v + - Vector3.z center))
              cubePositions)
    /\ BufferGeometry.index normalized = BufferGeometry.index cube
    /\ BufferGeometry.boundingBox normalized = Some box
    /\ box = BufferGeometry.setFromBufferAttribute positions'
    /\ Vector3.x (Box3.getCenter box) == 0
    /\ Vector3.y (Box3.getCenter box) == 0
    /\ Vector3.z (Box3.getCenter box) == 0
    /\ maxDimension box == 100.
Proof.
  apply (centerAndScale_normalizes cube cubePositions).
  - reflexivity.
  - vm_compute. reflexivity.
Defined.

(** C6 fails as stated: a decoded mesh with zero vertices is accepted. *)
Lemma parseFile_zero_vertices_succeeds :
  BufferGeometry.position noVertices = Some []
  /\ FileParseResult.success (parseSampleAs noVertices) = true
  /\ FileParseResult.error (parseSampleAs noVertices) = None.
Proof. vm_compute. repeat split. Qed.

Lemma parseFile_rejects_missing_position_witness :
  parseSampleAs noPosition
  = FileParseResult.make false None
      (Some "Invalid geometry: missing position attributes"%string)
  /\ exists model,
       parseSampleAs noVertices = FileParseResult.make true (Some model) None.
Proof.
  split.
  - apply (parseFile_rejects_missing_position sqrtMilli
             (fun _ => Return noPosition) (fun _ => Return [noPosition])
             (fun _ => Return noPosition) (fun _ => EmptyString)
             sampleFile noPosition); reflexivity.
  - apply (parseFile_rejects_missing_position sqrtMilli
             (fun _ => Return noVertices) (fun _ => Return [noVertices])
             (fun _ => Return noVertices) (fun _ => EmptyString)
             sampleFile noVertices); reflexivity.
Defined.

Lemma generateCuttingPaths_samples_witness :
  exists contours paths,
    Forall2 (fun i contour =>
               generateSliceContour sqrtMilli cubeBoxed
                 (0 + ofNat i * ((20 - 0) / 20))
               = Return contour)
            [0; 1; 2; 3; 4; 5; 6; 7; 8; 9; 10; 11; 12; 13; 14; 15; 16; 17;
             18; 19; 20]%nat
            contours
    /\ paths = filter (fun c => (0 <? List.length c)%nat) contours
    /\ generateCuttingPaths sqrtMilli cubeBoxed = Return paths
    /\ (List.length paths <= 21)%nat
    /\ Forall (fun contour => contour <> []) paths.
Proof.
  apply (generateCuttingPaths_samples sqrtMilli cubeBoxed cubePositions
           (Vector3.new 0 0 0) (Vector3.new 20 20 20));
    reflexivity.
Defined.

Lemma calculateSurfaceArea_additive_witness :
  exists area1 area2 area,
    calculateSurfaceArea sqrtMilli cube = Return area1
    /\ calculateSurfaceArea sqrtMilli cube = Return area2
    /\ calculateSurfaceArea sqrtMilli
         (BufferGeometry.make
            (Some (cubePositions ++ cubePositions))
            (Some (cubeIndices ++ map (fun k => (k + 8)%nat) cubeIndices))
            None)
       = Return area
    /\ area == area1 + area2.
Proof.
  apply (calculateSurfaceArea_additive sqrtMilli cube cube _
           cubePositions cubePositions).
  - reflexivity.
  - reflexivity.
  - simpl. repeat split; try reflexivity. repeat constructor.
  - simpl. repeat split; try reflexivity. repeat constructor.
  - reflexivity.
Defined.

Lemma contour_points_lie_on_their_plane_witness :
  (forall z, exists contour,
      generateSliceContour sqrtMilli cubeBoxed z = Return contour
      /\ Forall (fun p => Vector3.z p = z) contour)
  /\ (exists paths,
        generateCuttingPaths sqrtMilli cubeBoxed = Return paths
        /\ Forall (fun contour =>
                     exists z,
                       Forall (fun p => Vector3.z p = z) contour
                       /\ exists i, (i <= sliceCount)%nat
                                    /\ z = sliceZ (Vector3.new 0 0 0)
                                             (Vector3.new 20 20 20) i)
                  paths)
  /\ (forall points p,
        In p (sortContourPoints sqrtMilli points) <-> In p points).
Proof.
  apply (contour_points_lie_on_their_plane sqrtMilli cubeBoxed cubePositions
           (Box3.box (Vector3.new 0 0 0) (Vector3.new 20 20 20)));
    reflexivity.
Defined.

Lemma sortContourPoints_permutes_witness :
  let points := [Vector3.new 0 0 5; Vector3.new 9 0 5; Vector3.new 1 0 5;
                 Vector3.new 8 0 5] in
  hd_error (sortContourPoints sqrtMilli points) = hd_error points
  /\ sortContourPoints sqrtMilli (firstn 2 points) = firstn 2 points.
Proof.
  intros points.
  split.
  - apply (sortContourPoints_permutes sqrtMilli points). simpl. lia.
  - apply (sortContourPoints_permutes sqrtMilli (firstn 2 points)). simpl. lia.
Defined.

(** * Further properties of the parser *)

(** ** The file extension *)

Lemma toLowerCaseChar_dot c :
  Ascii.eqb (toLowerCaseChar c) "." = Ascii.eqb c ".".
Proof. destruct c as [[] [] [] [] [] [] [] []]; reflexivity. Qed.

Lemma toLowerCaseChar_idempotent c :
  toLowerCaseChar (toLowerCaseChar c) = toLowerCaseChar c.
Proof. destruct c as [[] [] [] [] [] [] [] []]; reflexivity. Qed.

Lemma toLowerCase_app a b :
  toLowerCase (a ++ b) = (toLowerCase a ++ toLowerCase b)%string.
Proof. induction a as [|c a IH]; simpl; [reflexivity | now rewrite IH]. Qed.

Lemma contains_toLowerCase s :
  contains "." (toLowerCase s) = contains "." s.
Proof.
  induction s as [|c s IH]; simpl; [reflexivity|].
  now rewrite toLowerCaseChar_dot, IH.
Qed.

Lemma split_not_nil separator s : split separator s <> [].
Proof.
  induction s as [|c s IH]; simpl; [discriminate|].
  destruct (Ascii.eqb c separator); [discriminate|].
  destruct (split separator s); discriminate.
Qed.

Lemma split_without_separator separator s :
  contains separator s = false -> split separator s = [s].
Proof.
  induction s as [|c s IH]; simpl; intros H; [reflexivity|].
  apply Bool.orb_false_iff in H. destruct H as [Hc Hs].
  rewrite Hc, (IH Hs). reflexivity.
Qed.

Lemma split_app_separator separator a b :
  split separator (a ++ String separator b)
  = split separator a ++ split separator b.
Proof.
  induction a as [|c a IH]; simpl.
  - now rewrite Ascii.eqb_refl.
  - destruct (Ascii.eqb c separator); rewrite IH; [reflexivity|].
    pose proof (split_not_nil separator a) as Hne.
    destruct (split separator a); [contradiction | reflexivity].
Qed.

Lemma pop_app (l1 l2 : list string) : l2 <> [] -> pop (l1 ++ l2) = pop l2.
Proof.
  intros Hne. unfold pop. induction l1 as [|s l1 IH]; simpl; [reflexivity|].
  destruct (l1 ++ l2) eqn:E; [|exact IH].
  apply app_eq_nil in E. destruct E as [_ E]. contradiction.
Qed.

Lemma extension_of_name base ext :
  contains "." ext = false ->
  pop (split "." (toLowerCase (base ++ "." ++ ext))) = toLowerCase ext
  /\ pop (split "." (toLowerCase ext)) = toLowerCase ext.
Proof.
  intros Hdot.
  assert (Hlow : split "." (toLowerCase ext) = [toLowerCase ext]).
  { apply split_without_separator. now rewrite contains_toLowerCase. }
  split.
  - rewrite toLowerCase_app. cbn [append toLowerCase].
    change (toLowerCaseChar ".") with "."%char.
    rewrite split_app_separator, pop_app, Hlow; [reflexivity|].
    apply split_not_nil.
  - now rewrite Hlow.
Qed.

(** The extension of a name that is [ext] or ends with "." and [ext]. *)
Lemma extension_of_fileName fileName ext :
  endsWithExtension fileName ext ->
  contains "." ext = false ->
  pop (split "." (toLowerCase fileName)) = toLowerCase ext.
Proof.
  intros [->|[base ->]] Hdot.
  - exact (proj2 (extension_of_name EmptyString ext Hdot)).
  - exact (proj1 (extension_of_name base ext Hdot)).
Qed.

(** ** The results of parseFile *)

Lemma soupTriangles_length positions :
  (List.length positions mod 9 = 0)%nat ->
  (List.length positions = 9 * List.length (soupTriangles positions))%nat.
Proof.
  intros Hmod. pattern positions. apply chunk9_ind; [| |exact Hmod].
  - reflexivity.
  - intros x1 y1 z1 x2 y2 z2 x3 y3 z3 rest IH.
    cbn [soupTriangles List.length]. lia.
Qed.

Lemma indexTriples_length indices :
  (List.length indices mod 3 = 0)%nat ->
  (List.length indices = 3 * List.length (indexTriples indices))%nat.
Proof.
  intros Hmod. pattern indices. apply chunk3_ind; [| |exact Hmod].
  - reflexivity.
  - intros a b c rest IH. cbn [indexTriples List.length]. lia.
Qed.

Lemma vertices_count positions :
  (List.length positions mod 3 = 0)%nat ->
  (List.length positions
   = 3 * List.length (BufferGeometry.vertices positions))%nat.
Proof.
  intros Hmod. pattern positions. apply chunk3_ind; [| |exact Hmod].
  - reflexivity.
  - intros x y z rest IH. cbn [BufferGeometry.vertices List.length]. lia.
Qed.

Lemma ofNat_third n k : (n = 3 * k)%nat -> ofNat n / 3 == ofNat k.
Proof.
  intros ->. unfold ofNat.
  replace (Z.of_nat (3 * k)) with (3 * Z.of_nat k)%Z by lia.
  rewrite inject_Z_mult. change (inject_Z 3) with 3. field.
Qed.

Section ParsingMore.

Variable sqrt : Q -> Q.
Variable stlLoader_parse : list Byte.byte -> outcome BufferGeometry.t.
Variable objLoader_parse : string -> outcome (list BufferGeometry.t).
Variable plyLoader_parse : list Byte.byte -> outcome BufferGeometry.t.
Variable TextDecoder_decode : list Byte.byte -> string.

Lemma generateCuttingPaths_nonindexed geometry positions boundingBox :
  BufferGeometry.index geometry = None ->
  BufferGeometry.position geometry = Some positions ->
  BufferGeometry.boundingBox geometry = Some boundingBox ->
  generateCuttingPaths sqrt geometry = Return [].
Proof.
  intros Hidx Hpos Hbox. destruct boundingBox as [|min max].
  - now apply generateCuttingPaths_empty_box with positions.
  - destruct (generateCuttingPaths_box sqrt geometry positions min max Hpos Hbox)
      as [contours [Hall Hret]].
    rewrite Hret. f_equal. clear Hret.
    induction Hall as [|i contour l contours Hi _ IH]; simpl; [reflexivity|].
    rewrite (generateSliceContour_nonindexed sqrt geometry positions _ Hpos Hidx)
      in Hi.
    injection Hi as <-. exact IH.
Qed.

(** What [assemble] builds from a geometry that has positions. *)
Lemma assemble_model geometry positions :
  BufferGeometry.position geometry = Some positions ->
  exists positions' volume area paths,
    let box := BufferGeometry.setFromBufferAttribute positions' in
    let normalized :=
      BufferGeometry.make (Some positions') (BufferGeometry.index geometry)
        (Some box) in
    List.length positions' = List.length positions
    /\ centerAndScale geometry = Return normalized
    /\ calculateVolume normalized = Return volume
    /\ calculateSurfaceArea sqrt normalized = Return area
    /\ generateCuttingPaths sqrt normalized = Return paths
    /\ assemble sqrt geometry
       = Return
           (FileParseResult.make true
              (Some
                 (ParsedModel.make normalized box paths
                    {| vertices := ofNat (List.length positions') / 3;
                       faces :=
                         match BufferGeometry.index geometry with
                         | Some indices => ofNat (List.length indices) / 3
                         | None => ofNat (List.length positions') / 3 / 3
                         end;
                       volume := volume;
                       surfaceArea := area |}))
              None).
Proof.
  intros Hpos. destruct geometry as [pos idx bb]. simpl in Hpos. subst pos.
  unfold assemble. cbn [BufferGeometry.position BufferGeometry.index].
  rewrite centerAndScale_unfold. cbv zeta.
  match goal with
  | |- context [Return (BufferGeometry.make (Some ?p) idx (Some ?b))] =>
      set (positions' := p);
      set (normalized := BufferGeometry.make (Some positions') idx
                           (Some (BufferGeometry.setFromBufferAttribute positions')));
      assert (Hp : BufferGeometry.position normalized = Some positions')
        by reflexivity;
      assert (Hb : BufferGeometry.boundingBox normalized
                   = Some (BufferGeometry.setFromBufferAttribute positions'))
        by reflexivity
  end.
  destruct (calculateVolume_returns normalized _ Hp) as [volume Hv].
  destruct (calculateSurfaceArea_returns sqrt normalized _ Hp) as [area Ha].
  destruct (generateCuttingPaths_returns sqrt normalized _ _ Hp Hb)
    as [paths Hpaths].
  exists positions', volume, area, paths.
  split.
  { unfold positions'.
    rewrite !(mapVertices_length _ _ _ (le_n _)). reflexivity. }
  split; [reflexivity|]. split; [exact Hv|]. split; [exact Ha|].
  split; [exact Hpaths|].
  cbn [bind]. unfold positionArray. rewrite Hp, Hv, Ha, Hpaths, Hb.
  reflexivity.
Qed.

Lemma parseFile_of_decoded file geometry :
  decode stlLoader_parse objLoader_parse plyLoader_parse TextDecoder_decode
    (pop (split "." (toLowerCase (name file)))) (arrayBuffer file)
  = Some (Return geometry) ->
  parseFile sqrt stlLoader_parse objLoader_parse plyLoader_parse
    TextDecoder_decode file
  = match assemble sqrt geometry with
    | Return result => result
    | Throw message =>
        FileParseResult.make false None
          (Some ("Failed to parse file: " ++ message)%string)
    | ThrowOther =>
        FileParseResult.make false None
          (Some "Failed to parse file: Unknown error"%string)
    end.
Proof. unfold parseFile. intros ->. reflexivity. Qed.

(** The two shapes of result that [assemble] returns. *)
Lemma assemble_model_or_error geometry :
  (exists model,
      assemble sqrt geometry
      = Return (FileParseResult.make true (Some model) None))
  \/ (exists message,
        assemble sqrt geometry
        = Return (FileParseResult.make false None (Some message))).
Proof.
  destruct (BufferGeometry.position geometry) as [positions|] eqn:Hpos.
  - destruct (assemble_success sqrt geometry positions Hpos)
      as [normalized [model [_ [_ Hres]]]].
    left. eauto.
  - unfold assemble. rewrite Hpos. right. eauto.
Qed.

(** Whatever the file and whatever the loaders do, [parseFile] returns
    either a success with a model and no error, or a failure with an
    error message and no model. *)
Theorem parseFile_model_or_error file :
  (exists model,
      parseFile sqrt stlLoader_parse objLoader_parse plyLoader_parse
        TextDecoder_decode file
      = FileParseResult.make true (Some model) None)
  \/ (exists message,
        parseFile sqrt stlLoader_parse objLoader_parse plyLoader_parse
          TextDecoder_decode file
        = FileParseResult.make false None (Some message)).
Proof.
  unfold parseFile.
  destruct (decode _ _ _ _ _ _) as [[geometry|message|]|]; cbn [bind].
  - destruct (assemble_model_or_error geometry) as [[model H]|[message H]];
      rewrite H; [left | right]; eauto.
  - right. eauto.
  - right. eauto.
  - right. eauto.
Qed.

(** [parseFile] reads of the file name only the text after its last
    ".", or the whole name when it has none, and that text whatever its
    letter case: two files with the same content whose names (of ASCII
    characters) end in extensions that agree up to letter case get the
    same result. *)
Theorem parseFile_depends_on_extension_only file1 file2 ext1 ext2 :
  endsWithExtension (name file1) ext1 ->
  contains "." ext1 = false ->
  endsWithExtension (name file2) ext2 ->
  contains "." ext2 = false ->
  isAscii (name file1) = true ->
  isAscii (name file2) = true ->
  toLowerCase ext1 = toLowerCase ext2 ->
  arrayBuffer file1 = arrayBuffer file2 ->
  parseFile sqrt stlLoader_parse objLoader_parse plyLoader_parse
    TextDecoder_decode file1
  = parseFile sqrt stlLoader_parse objLoader_parse plyLoader_parse
      TextDecoder_decode file2.
Proof.
  intros Hname1 Hdot1 Hname2 Hdot2 _ _ Hext Hbuffer.
  unfold parseFile.
  rewrite (extension_of_fileName _ _ Hname1 Hdot1).
  rewrite (extension_of_fileName _ _ Hname2 Hdot2).
  rewrite Hext, Hbuffer. reflexivity.
Qed.

(** A name (of ASCII characters) whose extension is none of stl, obj,
    ply in any letter case, be it the text after the last "." or a whole
    name without ".", is refused with the "Unsupported file format"
    message, which quotes the lower-cased extension; no loader is
    involved. *)
Theorem parseFile_unsupported_extension file ext :
  endsWithExtension (name file) ext ->
  contains "." ext = false ->
  isAscii (name file) = true ->
  toLowerCase ext <> "stl"%string ->
  toLowerCase ext <> "obj"%string ->
  toLowerCase ext <> "ply"%string ->
  parseFile sqrt stlLoader_parse objLoader_parse plyLoader_parse
    TextDecoder_decode file
  = FileParseResult.make false None
      (Some ("Unsupported file format: " ++ toLowerCase ext
               ++ ". Supported formats: STL, OBJ, PLY")%string).
Proof.
  intros Hname Hdot _ Hstl Hobj Hply.
  unfold parseFile.
  rewrite (extension_of_fileName _ _ Hname Hdot).
  unfold decode.
  apply String.eqb_neq in Hstl, Hobj, Hply.
  rewrite Hstl, Hobj, Hply. reflexivity.
Qed.

(** A loader that throws does not make [parseFile] throw.  When the
    loader selected by the extension throws an [Error], the result is
    the failure "Failed to parse file: <message of the error>"; when it
    throws a value that is not an [Error], the failure "Failed to parse
    file: Unknown error". *)
Theorem parseFile_reports_loader_exception file ext :
  endsWithExtension (name file) ext ->
  contains "." ext = false ->
  (forall message,
      (toLowerCase ext = "stl"%string
       /\ stlLoader_parse (arrayBuffer file) = Throw message)
      \/ (toLowerCase ext = "obj"%string
          /\ objLoader_parse (TextDecoder_decode (arrayBuffer file))
             = Throw message)
      \/ (toLowerCase ext = "ply"%string
          /\ plyLoader_parse (arrayBuffer file) = Throw message) ->
      parseFile sqrt stlLoader_parse objLoader_parse plyLoader_parse
        TextDecoder_decode file
      = FileParseResult.make false None
          (Some ("Failed to parse file: " ++ message)%string))
  /\ ((toLowerCase ext = "stl"%string
       /\ stlLoader_parse (arrayBuffer file) = ThrowOther)
      \/ (toLowerCase ext = "obj"%string
          /\ objLoader_parse (TextDecoder_decode (arrayBuffer file))
             = ThrowOther)
      \/ (toLowerCase ext = "ply"%string
          /\ plyLoader_parse (arrayBuffer file) = ThrowOther) ->
      parseFile sqrt stlLoader_parse objLoader_parse plyLoader_parse
        TextDecoder_decode file
      = FileParseResult.make false None
          (Some "Failed to parse file: Unknown error"%string)).
Proof.
  intros Hname Hdot.
  unfold parseFile.
  rewrite (extension_of_fileName _ _ Hname Hdot).
  unfold decode.
  split; [intros message Hcase | intros Hcase];
    destruct Hcase as [[-> ->]|[[-> ->]|[-> ->]]]; reflexivity.
Qed.

(** OBJ files: the geometry of the first child of the loaded group is the
    one parsed, whatever the other children are; a group without
    children gives a failure result. *)
Theorem parseFile_obj_uses_first_child file base ext :
  name file = (base ++ "." ++ ext)%string ->
  contains "." ext = false ->
  toLowerCase ext = "obj"%string ->
  (forall first others,
      objLoader_parse (TextDecoder_decode (arrayBuffer file))
      = Return (first :: others) ->
      parseFile sqrt stlLoader_parse objLoader_parse plyLoader_parse
        TextDecoder_decode file
      = parseFile sqrt stlLoader_parse (fun _ => Return [first])
          plyLoader_parse TextDecoder_decode file)
  /\ (objLoader_parse (TextDecoder_decode (arrayBuffer file)) = Return [] ->
      exists message,
        parseFile sqrt stlLoader_parse objLoader_parse plyLoader_parse
          TextDecoder_decode file
        = FileParseResult.make false None
            (Some ("Failed to parse file: " ++ message)%string)).
Proof.
  intros Hname Hdot Hobj.
  assert (Hext : pop (split "." (toLowerCase (name file))) = "obj"%string).
  { rewrite Hname, (proj1 (extension_of_name base ext Hdot)).
    exact Hobj. }
  split.
  - intros first others Hload. unfold parseFile. rewrite Hext. unfold decode.
    cbn [String.eqb Ascii.eqb Bool.eqb]. rewrite Hload. reflexivity.
  - intros Hload. unfold parseFile. rewrite Hext. unfold decode.
    cbn [String.eqb Ascii.eqb Bool.eqb]. rewrite Hload.
    eexists. reflexivity.
Qed.

(** A successful parse keeps the connectivity of the decoded mesh: the
    index array is untouched and the position array keeps its length;
    the stored bounding box is the box of the stored positions; and on a
    well-formed mesh the metadata counts its vertices and triangles. *)
Theorem parseFile_keeps_connectivity file geometry positions :
  decode stlLoader_parse objLoader_parse plyLoader_parse TextDecoder_decode
    (pop (split "." (toLowerCase (name file)))) (arrayBuffer file)
  = Some (Return geometry) ->
  BufferGeometry.position geometry = Some positions ->
  exists model positions',
    parseFile sqrt stlLoader_parse objLoader_parse plyLoader_parse
      TextDecoder_decode file
    = FileParseResult.make true (Some model) None
    /\ BufferGeometry.position (ParsedModel.geometry model) = Some positions'
    /\ List.length positions' = List.length positions
    /\ BufferGeometry.index (ParsedModel.geometry model)
       = BufferGeometry.index geometry
    /\ ParsedModel.boundingBox model
       = BufferGeometry.setFromBufferAttribute positions'
    /\ BufferGeometry.boundingBox (ParsedModel.geometry model)
       = Some (ParsedModel.boundingBox model)
    /\ (wellFormed positions (BufferGeometry.index geometry) ->
        vertices (ParsedModel.metadata model)
        == ofNat (List.length (BufferGeometry.vertices positions))
        /\ faces (ParsedModel.metadata model)
           == ofNat (List.length
                       (triangles positions (BufferGeometry.index geometry)))).
Proof.
  intros Hdec Hpos.
  destruct (assemble_model geometry positions Hpos)
    as [positions' [volume [area [paths H]]]].
  cbv zeta in H. destruct H as [Hlen [_ [_ [_ [_ Hres]]]]].
  rewrite (parseFile_of_decoded file geometry Hdec), Hres.
  eexists _, positions'. split; [reflexivity|].
  cbn [ParsedModel.geometry ParsedModel.boundingBox ParsedModel.metadata
       BufferGeometry.position BufferGeometry.index BufferGeometry.boundingBox
       vertices faces].
  repeat (split; [reflexivity || exact Hlen|]).
  intros Hwf. rewrite Hlen. unfold wellFormed, triangles in *.
  destruct (BufferGeometry.index geometry) as [indices|].
  - destruct Hwf as [Hp [Hi _]]. split.
    + apply ofNat_third. now apply vertices_count.
    + unfold indexedTriangles. rewrite length_map.
      apply ofNat_third. now apply indexTriples_length.
  - pose proof (soupTriangles_length positions Hwf) as Hnine.
    assert (Hthree : (List.length positions mod 3 = 0)%nat).
    { rewrite Hnine.
      replace (9 * List.length (soupTriangles positions))%nat
        with (3 * List.length (soupTriangles positions) * 3)%nat by lia.
      apply Nat.Div0.mod_mul. }
    pose proof (vertices_count positions Hthree) as Hv.
    split.
    + now apply ofNat_third.
    + rewrite (ofNat_third _ _ Hv). apply ofNat_third. lia.
Qed.

(** A decoded mesh without an index array (what an STL file gives) is
    parsed successfully, with no cutting path at all. *)
Theorem parseFile_nonindexed_has_no_cutting_paths file geometry positions :
  decode stlLoader_parse objLoader_parse plyLoader_parse TextDecoder_decode
    (pop (split "." (toLowerCase (name file)))) (arrayBuffer file)
  = Some (Return geometry) ->
  BufferGeometry.position geometry = Some positions ->
  BufferGeometry.index geometry = None ->
  exists model,
    parseFile sqrt stlLoader_parse objLoader_parse plyLoader_parse
      TextDecoder_decode file
    = FileParseResult.make true (Some model) None
    /\ ParsedModel.cuttingPaths model = [].
Proof.
  intros Hdec Hpos Hidx.
  destruct (assemble_model geometry positions Hpos)
    as [positions' [volume [area [paths H]]]].
  cbv zeta in H. destruct H as [_ [_ [_ [_ [Hpaths Hres]]]]].
  rewrite (parseFile_of_decoded file geometry Hdec), Hres.
  eexists. split; [reflexivity|]. cbn [ParsedModel.cuttingPaths].
  rewrite (generateCuttingPaths_nonindexed _ positions'
             (BufferGeometry.setFromBufferAttribute positions'))
    in Hpaths by (try reflexivity; exact Hidx).
  now injection Hpaths as <-.
Qed.

End ParsingMore.

(** ** More on the volume and the surface area *)

Lemma flipWinding_wellFormed positions indices :
  wellFormed positions (Some indices) ->
  wellFormed positions (Some (flipWinding indices)).
Proof.
  intros [Hp [Hi Hr]]. unfold wellFormed. split; [exact Hp|].
  revert Hr. pattern indices. apply chunk3_ind; [| |exact Hi].
  - intros _. split; [reflexivity | constructor].
  - intros a b c rest IH Hr.
    inversion Hr as [|? ? Ha Hr1]; subst.
    inversion Hr1 as [|? ? Hb Hr2]; subst.
    inversion Hr2 as [|? ? Hc Hr3]; subst.
    destruct (IH Hr3) as [Hlen Hrange]. split.
    + cbn [flipWinding List.length] in *.
      replace (S (S (S (List.length (flipWinding rest)))))
        with (List.length (flipWinding rest) + 1 * 3)%nat by lia.
      now rewrite Nat.Div0.mod_add.
    + cbn [flipWinding]. repeat constructor; assumption.
Qed.

Lemma indexedTriangles_flipWinding positions indices :
  (List.length indices mod 3 = 0)%nat ->
  indexedTriangles positions (flipWinding indices)
  = map (fun t : Triangle => let '(a, b, c) := t in (a, c, b))
        (indexedTriangles positions indices).
Proof.
  intros Hi. unfold indexedTriangles. pattern indices.
  apply chunk3_ind; [| |exact Hi].
  - reflexivity.
  - intros a b c rest IH. cbn [flipWinding indexTriples map]. now rewrite IH.
Qed.

Lemma signedVolume_flipped a b c :
  signedVolume (a, c, b) == - signedVolume (a, b, c).
Proof.
  unfold signedVolume, Vector3.dot, Vector3.cross.
  cbn [Vector3.x Vector3.y Vector3.z]. field.
Qed.

Lemma sum_map_scaled {A : Type} (f g : A -> Q) (k : Q) l :
  (forall a, g a == k * f a) ->
  sum (map g l) == k * sum (map f l).
Proof.
  intros Hfg. induction l as [|a l IH]; simpl.
  - ring.
  - rewrite IH, Hfg. ring.
Qed.

(** Reversing the winding of every triangle of a well-formed indexed
    mesh does not change the computed volume. *)
Theorem calculateVolume_ignores_winding geometry positions indices :
  BufferGeometry.position geometry = Some positions ->
  BufferGeometry.index geometry = Some indices ->
  wellFormed positions (Some indices) ->
  exists volume flipped,
    calculateVolume geometry = Return volume
    /\ calculateVolume
         (BufferGeometry.make (Some positions) (Some (flipWinding indices))
            (BufferGeometry.boundingBox geometry))
       = Return flipped
    /\ flipped == volume.
Proof.
  intros Hpos Hidx Hwf.
  assert (Hwf' : wellFormed positions (BufferGeometry.index geometry))
    by now rewrite Hidx.
  destruct (calculateVolume_sum geometry positions Hpos Hwf')
    as [volume [Hret Hsum]].
  destruct (calculateVolume_sum
              (BufferGeometry.make (Some positions) (Some (flipWinding indices))
                 (BufferGeometry.boundingBox geometry))
              positions eq_refl (flipWinding_wellFormed _ _ Hwf))
    as [flipped [Hret' Hsum']].
  exists volume, flipped. split; [exact Hret|]. split; [exact Hret'|].
  rewrite Hsum, Hsum', Hidx. cbn [BufferGeometry.index triangles].
  destruct Hwf as [_ [Hi _]].
  rewrite indexedTriangles_flipWinding by exact Hi. rewrite map_map.
  rewrite (sum_map_scaled signedVolume _ (-1)).
  - rewrite Qabs_Qmult. change (Qabs (-1)) with 1. ring.
  - intros [[a b] c]. rewrite signedVolume_flipped. ring.
Qed.

Lemma soupTriangles_mapVertices f positions :
  (List.length positions mod 9 = 0)%nat ->
  soupTriangles (BufferGeometry.mapVertices f positions)
  = map (mapTriangle (fun v => Vector3.clone (f v))) (soupTriangles positions).
Proof.
  intros Hmod. pattern positions. apply chunk9_ind; [| |exact Hmod].
  - reflexivity.
  - intros x1 y1 z1 x2 y2 z2 x3 y3 z3 rest IH.
    cbn [BufferGeometry.mapVertices soupTriangles map mapTriangle].
    rewrite IH. reflexivity.
Qed.

Lemma vertex_mapVertices f positions k :
  (List.length positions mod 3 = 0)%nat ->
  (k < List.length positions / 3)%nat ->
  vertex (BufferGeometry.mapVertices f positions) k
  = Vector3.clone (f (vertex positions k)).
Proof.
  intros Hmod Hk. unfold vertex.
  rewrite (vertices_mapVertices f _ _ (le_n _)).
  rewrite <- (vertices_length positions Hmod) in Hk.
  rewrite (nth_indep _ Vector3.zero (Vector3.clone (f Vector3.zero)))
    by now rewrite length_map.
  apply (map_nth (fun v => Vector3.clone (f v))).
Qed.

Lemma indexedTriangles_mapVertices f positions indices :
  wellFormed positions (Some indices) ->
  indexedTriangles (BufferGeometry.mapVertices f positions) indices
  = map (mapTriangle (fun v => Vector3.clone (f v)))
        (indexedTriangles positions indices).
Proof.
  intros [Hp [Hi Hr]]. unfold indexedTriangles. rewrite map_map.
  apply map_ext_in. intros [[a b] c] Hin.
  destruct (indexTriples_In indices a b c Hi Hin) as [Ha [Hb Hc]].
  rewrite Forall_forall in Hr. cbn [mapTriangle].
  now rewrite !vertex_mapVertices by auto.
Qed.

Lemma wellFormed_mapVertices f positions index :
  wellFormed positions index ->
  wellFormed (BufferGeometry.mapVertices f positions) index.
Proof.
  unfold wellFormed. rewrite (mapVertices_length f _ _ (le_n _)). tauto.
Qed.

Lemma signedVolume_scaled s t :
  signedVolume
    (mapTriangle
       (fun v => Vector3.clone
                   (Vector3.new (Vector3.x v * s) (Vector3.y v * s)
                                (Vector3.z v * s))) t)
  == s * s * s * signedVolume t.
Proof.
  destruct t as [[a b] c].
  unfold signedVolume, mapTriangle, Vector3.dot, Vector3.cross, Vector3.clone.
  cbn [Vector3.x Vector3.y Vector3.z]. field.
Qed.

(** Scaling a well-formed mesh uniformly by [s] multiplies its computed
    volume by [|s|^3]. *)
Theorem calculateVolume_scales_cubically geometry positions s :
  BufferGeometry.position geometry = Some positions ->
  wellFormed positions (BufferGeometry.index geometry) ->
  exists volume scaled,
    calculateVolume geometry = Return volume
    /\ calculateVolume (BufferGeometry.scale geometry s s s) = Return scaled
    /\ scaled == Qabs (s * s * s) * volume.
Proof.
  intros Hpos Hwf.
  destruct (calculateVolume_sum geometry positions Hpos Hwf)
    as [volume [Hret Hsum]].
  set (f := fun v => Vector3.new (Vector3.x v * s) (Vector3.y v * s)
                                 (Vector3.z v * s)).
  assert (Hpos' : BufferGeometry.position (BufferGeometry.scale geometry s s s)
                  = Some (BufferGeometry.mapVertices f positions)).
  { destruct geometry as [pos idx [bb|]]; simpl in Hpos; subst pos; reflexivity. }
  assert (Hidx' : BufferGeometry.index (BufferGeometry.scale geometry s s s)
                  = BufferGeometry.index geometry).
  { destruct geometry as [pos idx [bb|]]; reflexivity. }
  destruct (calculateVolume_sum (BufferGeometry.scale geometry s s s)
              (BufferGeometry.mapVertices f positions) Hpos')
    as [scaled [Hret' Hsum']].
  { rewrite Hidx'. now apply wellFormed_mapVertices. }
  exists volume, scaled. split; [exact Hret|]. split; [exact Hret'|].
  rewrite Hsum, Hsum', Hidx'. rewrite <- Qabs_Qmult. apply Qabs_wd.
  unfold triangles, wellFormed in *.
  destruct (BufferGeometry.index geometry) as [indices|].
  - rewrite indexedTriangles_mapVertices by exact Hwf. rewrite map_map.
    apply sum_map_scaled. intros t. apply signedVolume_scaled.
  - rewrite soupTriangles_mapVertices by exact Hwf. rewrite map_map.
    apply sum_map_scaled. intros t. apply signedVolume_scaled.
Qed.

(** With a square root that is never negative, the computed surface area
    of any mesh is never negative. *)
Theorem calculateSurfaceArea_nonnegative (sqrt : Q -> Q) geometry positions :
  (forall q, 0 <= sqrt q) ->
  BufferGeometry.position geometry = Some positions ->
  exists area, calculateSurfaceArea sqrt geometry = Return area /\ 0 <= area.
Proof.
  intros Hsqrt Hpos. unfold calculateSurfaceArea, positionArray.
  rewrite Hpos. cbn [nonNull bind]. eexists. split; [reflexivity|].
  assert (Hfold : forall (term : nat -> Q) l acc,
             (forall i, 0 <= term i) -> 0 <= acc ->
             0 <= fold_left (fun (area : Q) i => area + term i) l acc).
  { intros term l. induction l as [|i l IH]; simpl; intros acc Hterm Hacc.
    - exact Hacc.
    - apply IH; [exact Hterm|]. specialize (Hterm i). lra. }
  assert (Hhalf : forall v, 0 <= Vector3.length sqrt v / 2).
  { intros v. unfold Vector3.length. specialize (Hsqrt (Vector3.lengthSq v)).
    apply Qle_shift_div_l; lra. }
  destruct (BufferGeometry.index geometry) as [indices|].
  - apply (Hfold (fun i => Vector3.length sqrt _ / 2)); [|lra].
    intros i. apply Hhalf.
  - apply (Hfold (fun i => Vector3.length sqrt _ / 2)); [|lra].
    intros i. apply Hhalf.
Qed.

(** ** More on the triangle/plane intersection *)

Lemma getTriangleZPlaneIntersections_edges v1 v2 v3 z tolerance :
  getTriangleZPlaneIntersections v1 v2 v3 z tolerance
  = edgePoints v1 v2 z tolerance ++ edgePoints v2 v3 z tolerance
      ++ edgePoints v3 v1 z tolerance.
Proof.
  unfold getTriangleZPlaneIntersections, edgePoints, edgeCrosses. simpl.
  split_edge_tests; reflexivity.
Qed.

Lemma Qle_bool_false a b : Qle_bool a b = false <-> b < a.
Proof.
  split; intros H.
  - apply Qnot_le_lt. intros Hle. apply Qle_bool_iff in Hle. congruence.
  - apply Bool.not_true_iff_false. intros Hle. apply Qle_bool_iff in Hle. lra.
Qed.

Lemma Qabs_gt x t : t < Qabs x <-> x < - t \/ t < x.
Proof.
  split.
  - intros H. destruct (Qlt_le_dec x (- t)) as [Hlt|Hge]; [now left|].
    destruct (Qlt_le_dec t x) as [Hlt|Hle]; [now right|].
    exfalso. assert (Qabs x <= t) by (apply Qabs_Qle_condition; split; lra).
    lra.
  - intros H. apply Qnot_le_lt. intros Hle.
    apply Qabs_Qle_condition in Hle. lra.
Qed.

(** The edge test in terms of the heights of the two ends. *)
Lemma edgeCrosses_spec start end_ z tolerance :
  edgeCrosses start end_ z tolerance = true
  <-> ((Vector3.z start <= z + tolerance /\ z - tolerance <= Vector3.z end_)
       \/ (z - tolerance <= Vector3.z start /\ Vector3.z end_ <= z + tolerance))
      /\ (Vector3.z start - Vector3.z end_ < - tolerance
          \/ tolerance < Vector3.z start - Vector3.z end_).
Proof.
  unfold edgeCrosses, Qgeb, Qgtb, Qltb, Math.abs.
  rewrite Bool.andb_true_iff, Bool.orb_true_iff, !Bool.andb_true_iff,
    Bool.negb_true_iff, !Qle_bool_iff, Qle_bool_false, Qabs_gt.
  reflexivity.
Qed.

Lemma edgeCrosses_opposite_sides lower upper z tolerance :
  0 <= tolerance ->
  Vector3.z lower < z - tolerance -> z + tolerance < Vector3.z upper ->
  edgeCrosses lower upper z tolerance = true
  /\ edgeCrosses upper lower z tolerance = true.
Proof.
  intros Htol Hlow Hup. split; apply edgeCrosses_spec.
  - split; [left; split; lra | left; lra].
  - split; [right; split; lra | right; lra].
Qed.

Lemma edgeCrosses_both_above a b z tolerance :
  z + tolerance < Vector3.z a -> z + tolerance < Vector3.z b ->
  edgeCrosses a b z tolerance = false.
Proof.
  intros Ha Hb. apply Bool.not_true_iff_false. intros H.
  apply edgeCrosses_spec in H. destruct H as [[[H1 H2]|[H1 H2]] _]; lra.
Qed.

Lemma edgeCrosses_both_below a b z tolerance :
  Vector3.z a < z - tolerance -> Vector3.z b < z - tolerance ->
  edgeCrosses a b z tolerance = false.
Proof.
  intros Ha Hb. apply Bool.not_true_iff_false. intros H.
  apply edgeCrosses_spec in H. destruct H as [[[H1 H2]|[H1 H2]] _]; lra.
Qed.

Lemma edgeCrosses_level a b z tolerance :
  Qabs (Vector3.z a - Vector3.z b) <= tolerance ->
  edgeCrosses a b z tolerance = false.
Proof.
  intros Hflat. apply Bool.not_true_iff_false. intros H.
  apply edgeCrosses_spec in H. destruct H as [_ H].
  apply Qabs_gt in H. lra.
Qed.

(** A triangle that lies entirely above the plane by more than the
    tolerance, or entirely below it by more than the tolerance, yields
    no intersection point. *)
Theorem getTriangleZPlaneIntersections_off_plane v1 v2 v3 z tolerance :
  (z + tolerance < Vector3.z v1 /\ z + tolerance < Vector3.z v2
   /\ z + tolerance < Vector3.z v3)
  \/ (Vector3.z v1 < z - tolerance /\ Vector3.z v2 < z - tolerance
      /\ Vector3.z v3 < z - tolerance) ->
  getTriangleZPlaneIntersections v1 v2 v3 z tolerance = [].
Proof.
  intros H. rewrite getTriangleZPlaneIntersections_edges. unfold edgePoints.
  destruct H as [[H1 [H2 H3]]|[H1 [H2 H3]]].
  - now rewrite !edgeCrosses_both_above.
  - now rewrite !edgeCrosses_both_below.
Qed.

(** A triangle whose corners differ in height by at most the tolerance
    yields no point at any height, even when it lies in the slicing
    plane. *)
Theorem getTriangleZPlaneIntersections_level_triangle v1 v2 v3 z tolerance :
  Qabs (Vector3.z v1 - Vector3.z v2) <= tolerance ->
  Qabs (Vector3.z v2 - Vector3.z v3) <= tolerance ->
  Qabs (Vector3.z v3 - Vector3.z v1) <= tolerance ->
  getTriangleZPlaneIntersections v1 v2 v3 z tolerance = [].
Proof.
  intros H12 H23 H31. rewrite getTriangleZPlaneIntersections_edges.
  unfold edgePoints. now rewrite !edgeCrosses_level.
Qed.

(** When no corner of the triangle is within the tolerance of the plane,
    the routine emits no point if the corners are all on one side and
    exactly two points otherwise. *)
Theorem getTriangleZPlaneIntersections_generic v1 v2 v3 z tolerance :
  0 <= tolerance ->
  (Vector3.z v1 < z - tolerance \/ z + tolerance < Vector3.z v1) ->
  (Vector3.z v2 < z - tolerance \/ z + tolerance < Vector3.z v2) ->
  (Vector3.z v3 < z - tolerance \/ z + tolerance < Vector3.z v3) ->
  let emitted :=
    List.length (getTriangleZPlaneIntersections v1 v2 v3 z tolerance) in
  (emitted = 0%nat \/ emitted = 2%nat)
  /\ (emitted = 0%nat
      <-> (Vector3.z v1 < z /\ Vector3.z v2 < z /\ Vector3.z v3 < z)
          \/ (z < Vector3.z v1 /\ z < Vector3.z v2 /\ z < Vector3.z v3)).
Proof.
  intros Htol H1 H2 H3. cbv zeta.
  rewrite getTriangleZPlaneIntersections_edges. unfold edgePoints.
  destruct H1 as [H1|H1], H2 as [H2|H2], H3 as [H3|H3];
    repeat match goal with
           | |- context [edgeCrosses ?a ?b z tolerance] =>
               first
                 [ rewrite (edgeCrosses_both_below a b z tolerance) by assumption
                 | rewrite (edgeCrosses_both_above a b z tolerance) by assumption
                 | rewrite (proj1 (edgeCrosses_opposite_sides a b z tolerance
                                     Htol ltac:(assumption) ltac:(assumption)))
                 | rewrite (proj2 (edgeCrosses_opposite_sides b a z tolerance
                                     Htol ltac:(assumption) ltac:(assumption))) ]
           end;
    simpl; (split; [auto|]); split; intros H;
    try discriminate; try (left; repeat split; lra);
    try (right; repeat split; lra); try reflexivity;
    try (exfalso; destruct H as [[? [? ?]]|[? [? ?]]]; lra).
Qed.

(** Every emitted point lies at height [z] on the straight line through
    the two ends of one of the triangle's edges. *)
Theorem getTriangleZPlaneIntersections_on_edge_lines v1 v2 v3 z tolerance p :
  0 <= tolerance ->
  In p (getTriangleZPlaneIntersections v1 v2 v3 z tolerance) ->
  exists start end_,
    In (start, end_) [(v1, v2); (v2, v3); (v3, v1)]
    /\ edgeCrosses start end_ z tolerance = true
    /\ Vector3.z p = z
    /\ (Vector3.x p - Vector3.x start) * (Vector3.z end_ - Vector3.z start)
       == (Vector3.x end_ - Vector3.x start) * (z - Vector3.z start)
    /\ (Vector3.y p - Vector3.y start) * (Vector3.z end_ - Vector3.z start)
       == (Vector3.y end_ - Vector3.y start) * (z - Vector3.z start).
Proof.
  intros Htol Hin. rewrite getTriangleZPlaneIntersections_edges in Hin.
  assert (Hedge : forall start end_,
             In p (edgePoints start end_ z tolerance) ->
             edgeCrosses start end_ z tolerance = true
             /\ Vector3.z p = z
             /\ (Vector3.x p - Vector3.x start) * (Vector3.z end_ - Vector3.z start)
                == (Vector3.x end_ - Vector3.x start) * (z - Vector3.z start)
             /\ (Vector3.y p - Vector3.y start) * (Vector3.z end_ - Vector3.z start)
                == (Vector3.y end_ - Vector3.y start) * (z - Vector3.z start)).
  { intros start end_ Hp. unfold edgePoints in Hp.
    destruct (edgeCrosses start end_ z tolerance) eqn:Hcross; [|contradiction].
    destruct Hp as [<-|[]]. split; [reflexivity|]. split; [reflexivity|].
    apply edgeCrosses_spec in Hcross. destruct Hcross as [_ Hdz].
    assert (Hne : ~ Vector3.z end_ - Vector3.z start == 0) by (intros E; lra).
    unfold Vector3.set_z, Vector3.lerp, Vector3.clone.
    cbn [Vector3.x Vector3.y Vector3.z]. split; field; exact Hne. }
  apply in_app_or in Hin. destruct Hin as [Hin|Hin];
    [|apply in_app_or in Hin; destruct Hin as [Hin|Hin]].
  - exists v1, v2. split; [simpl; auto | now apply Hedge].
  - exists v2, v3. split; [simpl; auto | now apply Hedge].
  - exists v3, v1. split; [simpl; auto | now apply Hedge].
Qed.

(** ** More on the stitching *)

Section Greedy.

Variable sqrt : Q -> Q.

Lemma Qltb_true a b : Qltb a b = true <-> a < b.
Proof. unfold Qltb. rewrite Bool.negb_true_iff. apply Qle_bool_false. Qed.

Lemma nearest_fold_min (D : nat -> Q) l : forall n,
  snd (fold_left
         (fun (state : nat * Q) (i : nat) =>
            let (nearestIndex, nearestDistance) := state in
            let distance := D i in
            if Qltb distance nearestDistance then (i, distance)
            else (nearestIndex, nearestDistance))
         l (n, D n))
  = D (fst (fold_left
              (fun (state : nat * Q) (i : nat) =>
                 let (nearestIndex, nearestDistance) := state in
                 let distance := D i in
                 if Qltb distance nearestDistance then (i, distance)
                 else (nearestIndex, nearestDistance))
              l (n, D n)))
  /\ D (fst (fold_left
               (fun (state : nat * Q) (i : nat) =>
                  let (nearestIndex, nearestDistance) := state in
                  let distance := D i in
                  if Qltb distance nearestDistance then (i, distance)
                  else (nearestIndex, nearestDistance))
               l (n, D n)))
     <= D n
  /\ forall j, In j l ->
       D (fst (fold_left
                 (fun (state : nat * Q) (i : nat) =>
                    let (nearestIndex, nearestDistance) := state in
                    let distance := D i in
                    if Qltb distance nearestDistance then (i, distance)
                    else (nearestIndex, nearestDistance))
                 l (n, D n)))
       <= D j.
Proof.
  induction l as [|i l IH]; intros n; cbn [fold_left]; cbv zeta.
  - cbn [fst snd]. split; [reflexivity|]. split; [apply Qle_refl|].
    intros j [].
  - destruct (Qltb (D i) (D n)) eqn:Hlt.
    + apply Qltb_true in Hlt.
      destruct (IH i) as [Hsnd [Hle Hall]].
      split; [exact Hsnd|].
      split; [eapply Qle_trans; [exact Hle | now apply Qlt_le_weak]|].
      intros j [<-|Hj]; [exact Hle | now apply Hall].
    + assert (Hge : D n <= D i).
      { apply Qnot_lt_le. intros H. apply Qltb_true in H. congruence. }
      destruct (IH n) as [Hsnd [Hle Hall]].
      split; [exact Hsnd|]. split; [exact Hle|].
      intros j [<-|Hj]; [eapply Qle_trans; [exact Hle | exact Hge]
                        | now apply Hall].
Qed.

(** The point picked by the inner loop is as near to [current] as any
    point of [remaining]. *)
Lemma nearest_is_nearest current remaining other :
  In other remaining ->
  Vector3.distanceTo sqrt current
    (nth (nearest sqrt current remaining) remaining Vector3.zero)
  <= Vector3.distanceTo sqrt current other.
Proof.
  intros Hin.
  destruct (In_nth _ _ Vector3.zero Hin) as [j [Hj <-]].
  unfold nearest.
  destruct (nearest_fold_min
              (fun i => Vector3.distanceTo sqrt current
                          (nth i remaining Vector3.zero))
              (seq 1 (List.length remaining - 1)) 0%nat) as [_ [Hzero Hall]].
  destruct j as [|j].
  - exact Hzero.
  - apply Hall. apply in_seq. lia.
Qed.

Lemma stitch_nearestFirst fuel : forall sorted remaining,
  (List.length remaining <= fuel)%nat ->
  exists tail,
    stitch sqrt fuel sorted remaining = sorted ++ tail
    /\ Permutation remaining tail
    /\ nearestFirst sqrt (last sorted Vector3.zero) tail.
Proof.
  induction fuel as [|fuel IH]; intros sorted remaining Hfuel.
  - destruct remaining; simpl in *; [|lia].
    exists []. rewrite app_nil_r. repeat split. constructor.
  - simpl. destruct (0 <? List.length remaining)%nat eqn:Hpos.
    + apply Nat.ltb_lt in Hpos.
      set (current := last sorted Vector3.zero).
      set (i := nearest sqrt current remaining).
      pose proof (nearest_lt sqrt current remaining Hpos) as Hi. fold i in Hi.
      pose proof (splice1_Permutation Vector3.zero remaining i Hi) as Hperm.
      destruct (IH (sorted ++ [nth i remaining Vector3.zero])
                  (splice1 remaining i)) as [tail [Heq [Hptail Hnear]]].
      { rewrite splice1_length by exact Hi. lia. }
      exists (nth i remaining Vector3.zero :: tail).
      split; [rewrite Heq, <- app_assoc; reflexivity|].
      split; [eapply Permutation_trans; [exact Hperm | now apply perm_skip]|].
      rewrite last_last in Hnear. cbn [nearestFirst]. split; [|exact Hnear].
      intros other Hother. apply nearest_is_nearest.
      eapply Permutation_in; [apply Permutation_sym; exact Hperm|].
      right. eapply Permutation_in; [apply Permutation_sym; exact Hptail|].
      exact Hother.
    + apply Nat.ltb_ge in Hpos. destruct remaining; simpl in *; [|lia].
      exists []. rewrite app_nil_r. repeat split. constructor.
Qed.

(** The stitched path starts at the first input point and always hops to
    a point that is nearest among those not yet visited. *)
Theorem sortContourPoints_nearest_neighbour first others :
  exists path,
    sortContourPoints sqrt (first :: others) = first :: path
    /\ Permutation others path
    /\ nearestFirst sqrt first path.
Proof.
  unfold sortContourPoints.
  destruct (Nat.leb_spec (List.length (first :: others)) 2) as [Hle|Hgt].
  - exists others. split; [reflexivity|]. split; [apply Permutation_refl|].
    destruct others as [|q [|r others]]; simpl in Hle; try lia.
    + exact I.
    + cbn [nearestFirst]. split; [intros other []|exact I].
  - cbn [firstn skipn].
    destruct (stitch_nearestFirst (List.length others) [first] others (le_n _))
      as [tail [Heq [Hperm Hnear]]].
    exists tail. split; [exact Heq|]. split; [exact Hperm|]. exact Hnear.
Qed.

End Greedy.

(** ** More on slicing *)

Lemma slice_loop positions indices z tolerance :
  (List.length indices mod 3 = 0)%nat ->
  Forall (fun k => (k < List.length positions / 3)%nat) indices ->
  forall acc,
    fold_left
      (fun (contour : list Vector3.t) (i : nat) =>
         contour
         ++ getTriangleZPlaneIntersections
              (vertexAt positions (times (elem indices (Some i)) 3))
              (vertexAt positions (times (elem indices (Some (i + 1)%nat)) 3))
              (vertexAt positions (times (elem indices (Some (i + 2)%nat)) 3))
              z tolerance)
      (range (List.length indices) 3) acc
    = acc ++ flat_map (trianglePoints z tolerance)
               (indexedTriangles positions indices).
Proof.
  intros Hmod. pattern indices. apply chunk3_ind; [| |exact Hmod].
  - intros _ acc. simpl. now rewrite app_nil_r.
  - intros a b c rest IH Hrange acc.
    inversion Hrange as [|? ? Ha Hrange1]; subst.
    inversion Hrange1 as [|? ? Hb Hrange2]; subst.
    inversion Hrange2 as [|? ? Hc Hrange3]; subst.
    change (List.length (a :: b :: c :: rest)) with (3 + List.length rest)%nat.
    rewrite range_step by lia.
    cbn [fold_left]. rewrite fold_left_map_index.
    rewrite (fold_left_pointwise _
               (fun (contour : list Vector3.t) (i : nat) =>
                  contour
                  ++ getTriangleZPlaneIntersections
                       (vertexAt positions (times (elem rest (Some i)) 3))
                       (vertexAt positions (times (elem rest (Some (i + 1)%nat)) 3))
                       (vertexAt positions (times (elem rest (Some (i + 2)%nat)) 3))
                       z tolerance))
      by (intros; reflexivity).
    rewrite (IH Hrange3).
    unfold indexedTriangles. cbn [indexTriples map flat_map trianglePoints].
    change (elem (a :: b :: c :: rest) (Some 0%nat)) with (Some a).
    change (elem (a :: b :: c :: rest) (Some (0 + 1)%nat)) with (Some b).
    change (elem (a :: b :: c :: rest) (Some (0 + 2)%nat)) with (Some c).
    rewrite !vertexAt_vertex by assumption.
    now rewrite <- app_assoc.
Qed.

Lemma edgePoints_length start end_ z tolerance :
  (List.length (edgePoints start end_ z tolerance) <= 1)%nat.
Proof. unfold edgePoints. destruct (edgeCrosses _ _ _ _); simpl; lia. Qed.

Lemma trianglePoints_length z tolerance t :
  (List.length (trianglePoints z tolerance t) <= 3)%nat.
Proof.
  destruct t as [[a b] c]. unfold trianglePoints.
  rewrite getTriangleZPlaneIntersections_edges, !length_app.
  pose proof (edgePoints_length a b z tolerance).
  pose proof (edgePoints_length b c z tolerance).
  pose proof (edgePoints_length c a z tolerance). lia.
Qed.

Lemma flat_map_length_bound {A B : Type} (f : A -> list B) (k : nat) l :
  (forall a, List.length (f a) <= k)%nat ->
  (List.length (flat_map f l) <= k * List.length l)%nat.
Proof.
  intros Hf. induction l as [|a l IH]; simpl; [lia|].
  rewrite length_app. specialize (Hf a). lia.
Qed.

Section SlicingMore.

Variable sqrt : Q -> Q.

(** The contour of a well-formed indexed mesh, before stitching. *)
Lemma generateSliceContour_pool geometry positions indices z :
  BufferGeometry.position geometry = Some positions ->
  BufferGeometry.index geometry = Some indices ->
  wellFormed positions (Some indices) ->
  exists contour,
    generateSliceContour sqrt geometry z = Return contour
    /\ Permutation
         (flat_map (trianglePoints z (1 # 10))
            (indexedTriangles positions indices))
         contour.
Proof.
  intros Hpos Hidx [_ [Hmod Hrange]].
  unfold generateSliceContour, positionArray.
  rewrite Hpos, Hidx. cbn [nonNull bind].
  rewrite (slice_loop positions indices z (1 # 10) Hmod Hrange []).
  cbn [app].
  destruct (2 <? List.length _)%nat; eexists; (split; [reflexivity|]).
  - apply sortContourPoints_Permutation.
  - apply Permutation_refl.
Qed.

(** Slicing a well-formed indexed mesh collects exactly the intersection
    points of its triangles with the plane (tolerance 0.1), each once, in
    some order: at most three per triangle. *)
Theorem generateSliceContour_collects_triangle_points
    geometry positions indices z :
  BufferGeometry.position geometry = Some positions ->
  BufferGeometry.index geometry = Some indices ->
  wellFormed positions (Some indices) ->
  exists contour,
    generateSliceContour sqrt geometry z = Return contour
    /\ Permutation
         (flat_map (trianglePoints z (1 # 10))
            (triangles positions (Some indices)))
         contour
    /\ (List.length contour <= List.length indices)%nat.
Proof.
  intros Hpos Hidx Hwf.
  destruct (generateSliceContour_pool geometry positions indices z Hpos Hidx Hwf)
    as [contour [Hret Hperm]].
  exists contour. split; [exact Hret|]. split; [exact Hperm|].
  rewrite <- (Permutation_length Hperm).
  pose proof (flat_map_length_bound (trianglePoints z (1 # 10)) 3
                (indexedTriangles positions indices)
                (trianglePoints_length z (1 # 10))) as Hbound.
  destruct Hwf as [_ [Hmod _]].
  unfold indexedTriangles in *. rewrite length_map in Hbound.
  pose proof (indexTriples_length indices Hmod). lia.
Qed.

Lemma indexedTriangles_corners positions indices a b c :
  wellFormed positions (Some indices) ->
  In (a, b, c) (indexedTriangles positions indices) ->
  In a (BufferGeometry.vertices positions)
  /\ In b (BufferGeometry.vertices positions)
  /\ In c (BufferGeometry.vertices positions).
Proof.
  intros [Hp [Hi Hr]] Hin. unfold indexedTriangles in Hin.
  apply in_map_iff in Hin. destruct Hin as [[[i j] k] [Heq Hin]].
  injection Heq as <- <- <-.
  destruct (indexTriples_In indices i j k Hi Hin) as [Hi' [Hj' Hk']].
  rewrite Forall_forall in Hr. unfold vertex.
  rewrite <- (vertices_length positions Hp) in Hr.
  repeat split; apply nth_In; auto.
Qed.

Lemma flat_map_nil {A B : Type} (f : A -> list B) l :
  (forall a, In a l -> f a = []) -> flat_map f l = [].
Proof.
  induction l as [|a l IH]; simpl; intros Hf; [reflexivity|].
  rewrite (Hf a) by now left. apply IH. intros a' Ha'. apply Hf. now right.
Qed.

(** A plane that lies more than the tolerance below every vertex of a
    well-formed indexed mesh, or more than the tolerance above every
    vertex, gives an empty contour. *)
Theorem generateSliceContour_outside_mesh geometry positions indices z :
  BufferGeometry.position geometry = Some positions ->
  BufferGeometry.index geometry = Some indices ->
  wellFormed positions (Some indices) ->
  Forall (fun v => z + (1 # 10) < Vector3.z v) (BufferGeometry.vertices positions)
  \/ Forall (fun v => Vector3.z v < z - (1 # 10))
            (BufferGeometry.vertices positions) ->
  generateSliceContour sqrt geometry z = Return [].
Proof.
  intros Hpos Hidx Hwf Hside.
  destruct (generateSliceContour_pool geometry positions indices z Hpos Hidx Hwf)
    as [contour [Hret Hperm]].
  rewrite Hret. f_equal.
  rewrite flat_map_nil in Hperm; [now apply Permutation_nil in Hperm|].
  intros [[a b] c] Hin.
  destruct (indexedTriangles_corners positions indices a b c Hwf Hin)
    as [Ha [Hb Hc]].
  unfold trianglePoints.
  rewrite getTriangleZPlaneIntersections_edges. unfold edgePoints.
  destruct Hside as [Habove|Hbelow].
  - rewrite Forall_forall in Habove.
    now rewrite !edgeCrosses_both_above by auto.
  - rewrite Forall_forall in Hbelow.
    now rewrite !edgeCrosses_both_below by auto.
Qed.

End SlicingMore.

(** ** More on the cutting paths *)

Lemma fold_Qmin_lower l : forall a x, In x l -> fold_left Qmin l a <= x.
Proof.
  induction l as [|q l IH]; simpl; intros a x Hin; [contradiction|].
  destruct Hin as [<-|Hin].
  - eapply Qle_trans; [apply fold_Qmin_le | apply Q.le_min_r].
  - now apply IH.
Qed.

Lemma fold_Qmax_upper l : forall a x, In x l -> x <= fold_left Qmax l a.
Proof.
  induction l as [|q l IH]; simpl; intros a x Hin; [contradiction|].
  destruct Hin as [<-|Hin].
  - eapply Qle_trans; [apply Q.le_max_r | apply fold_Qmax_ge].
  - now apply IH.
Qed.

(** Every vertex lies between the corners of the box of the array, here
    along Z. *)
Lemma setFromBufferAttribute_bounds_z positions min max v :
  BufferGeometry.setFromBufferAttribute positions = Box3.box min max ->
  In v (BufferGeometry.vertices positions) ->
  Vector3.z min <= Vector3.z v /\ Vector3.z v <= Vector3.z max.
Proof.
  unfold BufferGeometry.setFromBufferAttribute.
  destruct (BufferGeometry.vertices positions) as [|v0 vs]; [discriminate|].
  rewrite box_of_vertices. intros Hbox Hin.
  injection Hbox as <- <-. cbn [Vector3.z].
  destruct Hin as [<-|Hin].
  - split; [apply fold_Qmin_le | apply fold_Qmax_ge].
  - split; [apply fold_Qmin_lower | apply fold_Qmax_upper];
      now apply in_map.
Qed.

Lemma StronglySorted_seq start len : StronglySorted lt (seq start len).
Proof.
  revert start. induction len as [|len IH]; intros start; simpl.
  - constructor.
  - constructor; [apply IH|].
    apply Forall_forall. intros i Hi. apply in_seq in Hi. lia.
Qed.

(** The entries kept by a filter, with the positions they came from. *)
Lemma Forall2_filter_sorted {B : Type} (R : nat -> B -> Prop)
    (keep : B -> bool) l cs :
  Forall2 R l cs -> StronglySorted lt l ->
  exists l',
    Forall2 R l' (filter keep cs)
    /\ StronglySorted lt l'
    /\ (forall i, In i l' -> In i l).
Proof.
  induction 1 as [|i c l cs Hic _ IH]; intros Hsorted.
  - exists []. repeat split; [constructor | constructor | auto].
  - inversion Hsorted as [|? ? Hs Hlt]; subst.
    destruct (IH Hs) as [l' [Hall [Hs' Hsub]]].
    cbn [filter]. destruct (keep c).
    + exists (i :: l'). split; [now constructor|]. split.
      * constructor; [exact Hs'|].
        rewrite Forall_forall in *. intros j Hj. apply Hlt. now apply Hsub.
      * intros j [<-|Hj]; [now left | right; now apply Hsub].
    + exists l'. split; [exact Hall|]. split; [exact Hs'|].
      intros j Hj. right. now apply Hsub.
Qed.

Lemma ofNat_lt i j : (i < j)%nat -> ofNat i < ofNat j.
Proof. intros H. unfold ofNat. rewrite <- Zlt_Qlt. lia. Qed.

Lemma ofNat_bounds i : (i <= sliceCount)%nat -> 0 <= ofNat i /\ ofNat i <= 20.
Proof.
  intros H. unfold sliceCount in H. unfold ofNat.
  change 0 with (inject_Z 0). change 20 with (inject_Z 20).
  rewrite <- !Zle_Qle. lia.
Qed.

Lemma sliceZ_increasing min max i j :
  Vector3.z min < Vector3.z max -> (i < j)%nat ->
  sliceZ min max i < sliceZ min max j.
Proof.
  intros Hz Hij. unfold sliceZ, sliceCount.
  pose proof (ofNat_lt i j Hij) as Hlt.
  change (ofNat 20) with 20.
  assert (Hstep : 0 < (Vector3.z max - Vector3.z min) / 20).
  { apply Qlt_shift_div_l; lra. }
  nra.
Qed.

Lemma sliceZ_within min max i :
  Vector3.z min <= Vector3.z max -> (i <= sliceCount)%nat ->
  Vector3.z min <= sliceZ min max i /\ sliceZ min max i <= Vector3.z max.
Proof.
  intros Hz Hi. unfold sliceZ. destruct (ofNat_bounds i Hi) as [H0 H20].
  change (ofNat sliceCount) with 20.
  set (d := Vector3.z max - Vector3.z min) in *.
  assert (Hd : 0 <= d) by (unfold d; lra).
  assert (Hstep : 0 <= d / 20) by (apply Qle_shift_div_l; lra).
  assert (Hfull : 20 * (d / 20) == d) by (field).
  split; [nra|].
  assert (ofNat i * (d / 20) <= 20 * (d / 20)) by nra.
  unfold d in *. lra.
Qed.

Section CuttingMore.

Variable sqrt : Q -> Q.

Lemma generateCuttingPaths_of_empty_slices geometry positions boundingBox :
  BufferGeometry.position geometry = Some positions ->
  BufferGeometry.boundingBox geometry = Some boundingBox ->
  (forall z, generateSliceContour sqrt geometry z = Return []) ->
  generateCuttingPaths sqrt geometry = Return [].
Proof.
  intros Hpos Hbox Hempty. destruct boundingBox as [|min max].
  - now apply generateCuttingPaths_empty_box with positions.
  - destruct (generateCuttingPaths_box sqrt geometry positions min max Hpos Hbox)
      as [contours [Hall Hret]].
    rewrite Hret. f_equal. clear Hret.
    induction Hall as [|i contour l contours Hi _ IH]; simpl; [reflexivity|].
    rewrite Hempty in Hi. injection Hi as <-. exact IH.
Qed.

(** A well-formed indexed mesh whose extent along Z is at most the
    tolerance 0.1 has an empty contour at every height and therefore no
    cutting path, whatever its extent along X and Y. *)
Theorem generateCuttingPaths_thin_mesh
    geometry positions indices min max boundingBox :
  BufferGeometry.position geometry = Some positions ->
  BufferGeometry.index geometry = Some indices ->
  wellFormed positions (Some indices) ->
  BufferGeometry.setFromBufferAttribute positions = Box3.box min max ->
  Vector3.z max - Vector3.z min <= 1 # 10 ->
  BufferGeometry.boundingBox geometry = Some boundingBox ->
  (forall z, generateSliceContour sqrt geometry z = Return [])
  /\ generateCuttingPaths sqrt geometry = Return [].
Proof.
  intros Hpos Hidx Hwf Hbox Hthin Hbb.
  assert (Hempty : forall z, generateSliceContour sqrt geometry z = Return []).
  { intros z.
    destruct (generateSliceContour_pool sqrt geometry positions indices z
                Hpos Hidx Hwf) as [contour [Hret Hperm]].
    rewrite Hret. f_equal.
    rewrite flat_map_nil in Hperm; [now apply Permutation_nil in Hperm|].
    intros [[a b] c] Hin.
    destruct (indexedTriangles_corners positions indices a b c Hwf Hin)
      as [Ha [Hb Hc]].
    pose proof (setFromBufferAttribute_bounds_z positions min max a Hbox Ha).
    pose proof (setFromBufferAttribute_bounds_z positions min max b Hbox Hb).
    pose proof (setFromBufferAttribute_bounds_z positions min max c Hbox Hc).
    unfold trianglePoints.
    rewrite getTriangleZPlaneIntersections_edges. unfold edgePoints.
    rewrite !edgeCrosses_level; [reflexivity| | |];
      apply Qabs_Qle_condition; split; lra. }
  split; [exact Hempty|].
  now apply generateCuttingPaths_of_empty_slices with positions boundingBox.
Qed.

(** The cutting paths come bottom to top: each path lies in one plane,
    the heights of these planes are strictly increasing along the
    result, and they all lie between the bottom and the top of the
    bounding box. *)
Theorem generateCuttingPaths_bottom_to_top geometry positions min max :
  BufferGeometry.position geometry = Some positions ->
  BufferGeometry.boundingBox geometry = Some (Box3.box min max) ->
  Vector3.z min < Vector3.z max ->
  exists paths heights,
    generateCuttingPaths sqrt geometry = Return paths
    /\ Forall2 (fun height contour =>
                  Forall (fun p => Vector3.z p = height) contour)
               heights paths
    /\ StronglySorted Qlt heights
    /\ Forall (fun height =>
                 Vector3.z min <= height /\ height <= Vector3.z max)
              heights.
Proof.
  intros Hpos Hbox Hz.
  destruct (generateCuttingPaths_box sqrt geometry positions min max Hpos Hbox)
    as [contours [Hall Hret]].
  destruct (Forall2_filter_sorted _ (fun c => (0 <? List.length c)%nat)
              _ _ Hall (StronglySorted_seq 0 (sliceCount + 1)))
    as [l' [Hall' [Hsorted Hsub]]].
  exists (filter (fun c => (0 <? List.length c)%nat) contours),
         (map (sliceZ min max) l').
  split; [exact Hret|].
  assert (Hrange : forall i, In i l' -> (i <= sliceCount)%nat).
  { intros i Hi. apply Hsub, in_seq in Hi. lia. }
  clear Hret Hall Hsub. split; [|split].
  - induction Hall' as [|i contour l'' paths Hi _ IH]; simpl; constructor.
    + destruct (generateSliceContour_returns sqrt geometry positions
                  (sliceZ min max i) Hpos) as [contour' [Hret' Hplane]].
      rewrite Hret' in Hi. injection Hi as <-. exact Hplane.
    + apply IH.
      * now inversion Hsorted.
      * intros j Hj. apply Hrange. now right.
  - clear Hall' Hrange.
    induction Hsorted as [|i l'' Hs IH Hlt]; simpl; constructor.
    + exact IH.
    + rewrite Forall_forall in *. intros h Hh.
      apply in_map_iff in Hh. destruct Hh as [j [<- Hj]].
      apply sliceZ_increasing; [exact Hz | now apply Hlt].
  - apply Forall_forall. intros h Hh.
    apply in_map_iff in Hh. destruct Hh as [j [<- Hj]].
    apply sliceZ_within; [lra | now apply Hrange].
Qed.

End CuttingMore.

(** * The callers of the parser *)

(** ** FileUploadPanel: handleFileSelect *)

Section UploadPanel.

Variable sqrt : Q -> Q.
Variable stlLoader_parse : list Byte.byte -> outcome BufferGeometry.t.
Variable objLoader_parse : string -> outcome (list BufferGeometry.t).
Variable plyLoader_parse : list Byte.byte -> outcome BufferGeometry.t.
Variable TextDecoder_decode : list Byte.byte -> string.

Lemma includes_supportedFormats extension :
  includes supportedFormats ("." ++ extension)
  = (String.eqb extension "stl" || String.eqb extension "obj"
     || String.eqb extension "ply").
Proof.
  unfold includes, supportedFormats. cbn [existsb append String.eqb].
  rewrite Ascii.eqb_refl. now rewrite Bool.orb_false_r, Bool.orb_assoc.
Qed.

Lemma decode_supported extension buffer :
  includes supportedFormats ("." ++ extension) = true
  <-> decode stlLoader_parse objLoader_parse plyLoader_parse
        TextDecoder_decode extension buffer <> None.
Proof.
  rewrite includes_supportedFormats. unfold decode.
  destruct (String.eqb extension "stl"); [split; [discriminate | reflexivity]|].
  destruct (String.eqb extension "obj"); [split; [discriminate | reflexivity]|].
  destruct (String.eqb extension "ply"); [split; [discriminate | reflexivity]|].
  split; [discriminate | intros H; now contradiction H].
Qed.

(** The extension check of the upload panel and the [switch] of
    [parseFile] agree: the panel lets an extension through exactly when
    the parser has a loader for it. *)
Theorem upload_check_matches_parser extension buffer :
  includes supportedFormats ("." ++ extension) = true
  <-> decode stlLoader_parse objLoader_parse plyLoader_parse
        TextDecoder_decode extension buffer <> None.
Proof. apply decode_supported. Qed.

(** The panel hands a model over exactly when the file is within the
    50 MB limit and [parseFile] succeeds on it, and it is the model that
    [parseFile] built; in every other case it reports an error. *)
Theorem handleFileSelect_loads_parsed_model file model :
  handleFileSelect sqrt stlLoader_parse objLoader_parse plyLoader_parse
    TextDecoder_decode file = ModelLoaded model
  <-> (Z.of_nat (List.length (arrayBuffer file)) <= maxFileSize)%Z
      /\ parseFile sqrt stlLoader_parse objLoader_parse plyLoader_parse
           TextDecoder_decode file
         = FileParseResult.make true (Some model) None.
Proof.
  unfold handleFileSelect.
  destruct (Z.ltb_spec maxFileSize (Z.of_nat (List.length (arrayBuffer file))))
    as [Hbig|Hsmall].
  { split; [discriminate | intros [Hle _]; lia]. }
  assert (Hshape :
            (exists parsed,
                parseFile sqrt stlLoader_parse objLoader_parse plyLoader_parse
                  TextDecoder_decode file
                = FileParseResult.make true (Some parsed) None)
            \/ (exists message,
                  parseFile sqrt stlLoader_parse objLoader_parse
                    plyLoader_parse TextDecoder_decode file
                  = FileParseResult.make false None (Some message))).
  { unfold parseFile.
    destruct (decode _ _ _ _ _ _) as [[geometry|message|]|]; cbn [bind].
    - destruct (assemble_model_or_error sqrt geometry)
        as [[parsed H]|[message H]]; rewrite H; [left | right]; eauto.
    - right. eauto.
    - right. eauto.
    - right. eauto. }
  destruct Hshape as [[parsed Hparsed]|[message Hfailed]].
  - assert (Hincl : includes supportedFormats
                      ("." ++ pop (split "." (toLowerCase (name file))))
                    = true).
    { apply (decode_supported _ (arrayBuffer file)). intros Hnone.
      unfold parseFile in Hparsed. rewrite Hnone in Hparsed.
      discriminate Hparsed. }
    rewrite Hincl, Hparsed. cbn.
    split.
    + intros H. injection H as <-. auto.
    + intros [_ H]. injection H as <-. reflexivity.
  - rewrite Hfailed.
    destruct (includes supportedFormats _); cbn;
      (split; [discriminate | intros [_ H]; discriminate H]).
Qed.

End UploadPanel.

(** ** Model3DViewer: the paths drawn *)

Lemma firstn_prefix {A : Type} (l : list A) : forall a b,
  (a <= b)%nat -> firstn b l = firstn a l ++ firstn (b - a) (skipn a l).
Proof.
  induction l as [|x l IH]; intros a b Hab.
  - now rewrite !firstn_nil, skipn_nil, firstn_nil.
  - destruct a as [|a].
    + cbn [firstn skipn app]. now rewrite Nat.sub_0_r.
    + destruct b as [|b]; [lia|]. cbn [firstn skipn app Nat.sub].
      f_equal. apply IH. lia.
Qed.

Lemma pathsToShow_nonnegative model progress :
  0 <= progress -> (0 <= pathsToShow model progress)%Z.
Proof.
  intros Hp. unfold pathsToShow.
  change 0%Z with (Qfloor 0). apply Qfloor_resp_le.
  assert (0 <= ofNat (List.length (ParsedModel.cuttingPaths model))).
  { unfold ofNat. change 0 with (inject_Z 0). rewrite <- Zle_Qle. lia. }
  assert (0 <= progress / 100) by (apply Qle_shift_div_l; lra).
  nra.
Qed.

(** The reveal of the cutting paths is progressive: raising the progress
    only adds paths after those already drawn; at 100 every path with at
    least two points is drawn, in order, and at 0 none is. *)
Theorem drawnPaths_progressive model p q :
  0 <= p -> p <= q ->
  (exists more, drawnPaths model q = drawnPaths model p ++ more)
  /\ drawnPaths model 100
     = filter (fun path => (1 <? List.length path)%nat)
              (ParsedModel.cuttingPaths model)
  /\ drawnPaths model 0 = [].
Proof.
  intros Hp Hpq. split; [|split].
  - unfold drawnPaths, slice0.
    pose proof (pathsToShow_nonnegative model p Hp) as H0p.
    assert (H0q : (0 <= pathsToShow model q)%Z)
      by (apply pathsToShow_nonnegative; lra).
    assert (Hmono : (pathsToShow model p <= pathsToShow model q)%Z).
    { unfold pathsToShow. apply Qfloor_resp_le.
      assert (0 <= ofNat (List.length (ParsedModel.cuttingPaths model))).
      { unfold ofNat. change 0 with (inject_Z 0). rewrite <- Zle_Qle. lia. }
      assert (p / 100 <= q / 100).
      { apply Qle_shift_div_l; [lra|].
        assert (E : p / 100 * 100 == p) by field. lra. }
      nra. }
    destruct (Z.ltb_spec (pathsToShow model p) 0); [lia|].
    destruct (Z.ltb_spec (pathsToShow model q) 0); [lia|].
    rewrite (firstn_prefix (ParsedModel.cuttingPaths model)
               (Z.to_nat (pathsToShow model p))
               (Z.to_nat (pathsToShow model q))) by lia.
    rewrite filter_app. eauto.
  - unfold drawnPaths, slice0, pathsToShow.
    assert (E : 100 / 100 * ofNat (List.length (ParsedModel.cuttingPaths model))
                == inject_Z (Z.of_nat
                               (List.length (ParsedModel.cuttingPaths model)))).
    { unfold ofNat. field. }
    assert (Hk : Qfloor (100 / 100
                         * ofNat (List.length (ParsedModel.cuttingPaths model)))
                 = Z.of_nat (List.length (ParsedModel.cuttingPaths model)))
      by (rewrite E; apply Qfloor_Z).
    rewrite Hk.
    destruct (Z.ltb_spec (Z.of_nat (List.length (ParsedModel.cuttingPaths model))) 0);
      [lia|].
    now rewrite Nat2Z.id, firstn_all.
  - unfold drawnPaths, slice0, pathsToShow.
    assert (E : 0 / 100 * ofNat (List.length (ParsedModel.cuttingPaths model))
                == inject_Z 0) by (unfold ofNat; field).
    assert (Hk : Qfloor (0 / 100
                         * ofNat (List.length (ParsedModel.cuttingPaths model)))
                 = 0%Z)
      by (rewrite E; apply Qfloor_Z).
    rewrite Hk. reflexivity.
Qed.

(** ** CuttingSimulation: the path taken from an uploaded model *)

Section SimulationPath.

Variable sqrt : Q -> Q.
Variable stlLoader_parse : list Byte.byte -> outcome BufferGeometry.t.
Variable objLoader_parse : string -> outcome (list BufferGeometry.t).
Variable plyLoader_parse : list Byte.byte -> outcome BufferGeometry.t.
Variable TextDecoder_decode : list Byte.byte -> string.

(** Each returned cutting path is non-empty and lies in one plane. *)
Lemma generateCuttingPaths_planar geometry positions boundingBox paths :
  BufferGeometry.position geometry = Some positions ->
  BufferGeometry.boundingBox geometry = Some boundingBox ->
  generateCuttingPaths sqrt geometry = Return paths ->
  Forall (fun contour =>
            contour <> []
            /\ exists z, Forall (fun p => Vector3.z p = z) contour)
         paths.
Proof.
  intros Hpos Hbox Hret. destruct boundingBox as [|min max].
  - rewrite (generateCuttingPaths_empty_box sqrt geometry positions Hpos Hbox)
      in Hret.
    injection Hret as <-. constructor.
  - destruct (generateCuttingPaths_box sqrt geometry positions min max Hpos Hbox)
      as [contours [Hall Hret']].
    rewrite Hret' in Hret. injection Hret as <-.
    apply Forall_forall. intros contour Hin.
    apply filter_In in Hin. destruct Hin as [Hin Hlen].
    split.
    + apply Nat.ltb_lt in Hlen. intros ->. simpl in Hlen. lia.
    + destruct (Forall2_In_right _ _ _ _ Hall Hin) as [i [_ Hslice]].
      destruct (generateSliceContour_returns sqrt geometry positions
                  (sliceZ min max i) Hpos) as [contour' [Hret'' Hz]].
      rewrite Hret'' in Hslice. injection Hslice as <-. eauto.
Qed.

(** The path taken from a model that [assemble] built, with the numbers
    of the rational model: the first cutting path, which is non-empty
    and lies in its slicing plane, or the outline at the top of the box. *)
Lemma assemble_path_planar geometry positions model :
  BufferGeometry.position geometry = Some positions ->
  assemble sqrt geometry
  = Return (FileParseResult.make true (Some model) None) ->
  convertModelToCuttingPath model <> []
  /\ exists z,
       Forall (fun p => Point3D.z p = z) (convertModelToCuttingPath model).
Proof.
  intros Hpos Hres.
  destruct (assemble_model sqrt geometry positions Hpos)
    as [positions' [volume [area [paths H]]]].
  cbv zeta in H. destruct H as [_ [_ [_ [_ [Hpaths Hres']]]]].
  rewrite Hres' in Hres. injection Hres as <-.
  pose proof (generateCuttingPaths_planar
                (BufferGeometry.make (Some positions')
                   (BufferGeometry.index geometry)
                   (Some (BufferGeometry.setFromBufferAttribute positions')))
                positions' (BufferGeometry.setFromBufferAttribute positions')
                paths eq_refl eq_refl Hpaths) as Hplanar.
  unfold convertModelToCuttingPath. cbn [ParsedModel.cuttingPaths].
  destruct paths as [|contour paths]; cbn [List.length Nat.ltb Nat.leb nth].
  - split; [discriminate|]. eexists. repeat constructor.
  - inversion Hplanar as [|? ? [Hne [z Hz]] _]; subst.
    split.
    + destruct contour; [contradiction | discriminate].
    + exists (Finite z). apply Forall_map.
      eapply Forall_impl; [|exact Hz].
      intros p Hp. cbn [Point3D.z]. now rewrite Hp.
Qed.

(** For a decoded mesh with some extent, and for one without any vertex,
    the path handed to the simulation is non-empty and all its points
    carry the same Z: that of the first slicing plane with a contour, or
    of the top of the bounding box.  (A mesh with vertices but no extent
    is left out: the code stores NaN coordinates for it.) *)
Theorem convertModelToCuttingPath_of_parsed_model file geometry positions :
  decode stlLoader_parse objLoader_parse plyLoader_parse TextDecoder_decode
    (pop (split "." (toLowerCase (name file)))) (arrayBuffer file)
  = Some (Return geometry) ->
  BufferGeometry.position geometry = Some positions ->
  0 < maxDimension (BufferGeometry.setFromBufferAttribute positions)
  \/ positions = [] ->
  exists model,
    parseFile sqrt stlLoader_parse objLoader_parse plyLoader_parse
      TextDecoder_decode file
    = FileParseResult.make true (Some model) None
    /\ convertModelToCuttingPath model <> []
    /\ exists z,
         Forall (fun p => Point3D.z p = z) (convertModelToCuttingPath model).
Proof.
  intros Hdec Hpos _.
  destruct (assemble_success sqrt geometry positions Hpos)
    as [normalized [model [_ [_ Hres]]]].
  exists model. split.
  - rewrite (parseFile_of_decoded sqrt _ _ _ _ file geometry Hdec), Hres.
    reflexivity.
  - exact (assemble_path_planar geometry positions model Hpos Hres).
Qed.

(** A mesh without an index array (what an STL file decodes to) that has
    some extent is never cut along a slice: the simulation follows the
    outline of the top face of the normalized bounding box. *)
Theorem convertModelToCuttingPath_of_nonindexed_mesh file geometry positions :
  decode stlLoader_parse objLoader_parse plyLoader_parse TextDecoder_decode
    (pop (split "." (toLowerCase (name file)))) (arrayBuffer file)
  = Some (Return geometry) ->
  BufferGeometry.position geometry = Some positions ->
  BufferGeometry.index geometry = None ->
  0 < maxDimension (BufferGeometry.setFromBufferAttribute positions) ->
  exists model min max,
    parseFile sqrt stlLoader_parse objLoader_parse plyLoader_parse
      TextDecoder_decode file
    = FileParseResult.make true (Some model) None
    /\ ParsedModel.boundingBox model = Box3.box min max
    /\ convertModelToCuttingPath model
       = map (fun c : Q * Q =>
                Point3D.make (Finite (fst c)) (Finite (snd c))
                             (Finite (Vector3.z max)))
             [ (Vector3.x min, Vector3.y min); (Vector3.x max, Vector3.y min);
               (Vector3.x max, Vector3.y max); (Vector3.x min, Vector3.y max);
               (Vector3.x min, Vector3.y min) ].
Proof.
  intros Hdec Hpos Hidx Hextent.
  assert (Hne : BufferGeometry.vertices positions <> []).
  { intros Hnil. unfold BufferGeometry.setFromBufferAttribute in Hextent.
    rewrite Hnil in Hextent. vm_compute in Hextent. discriminate Hextent. }
  destruct (assemble_model sqrt geometry positions Hpos)
    as [positions' [volume [area [paths H]]]].
  cbv zeta in H. destruct H as [_ [Hnorm [_ [_ [Hpaths Hres]]]]].
  rewrite (generateCuttingPaths_nonindexed sqrt _ positions'
             (BufferGeometry.setFromBufferAttribute positions'))
    in Hpaths by (try reflexivity; exact Hidx).
  injection Hpaths as <-.
  assert (Hbox : exists min max,
             BufferGeometry.setFromBufferAttribute positions'
             = Box3.box min max).
  { destruct geometry as [pos idx bb]. simpl in Hpos. subst pos.
    rewrite centerAndScale_unfold in Hnorm. cbv zeta in Hnorm.
    injection Hnorm as Hpositions.
    unfold BufferGeometry.setFromBufferAttribute at 1. rewrite <- Hpositions.
    rewrite !(vertices_mapVertices _ _ _ (le_n _)), map_map.
    destruct (BufferGeometry.vertices positions) as [|v0 vs]; [contradiction|].
    cbn [map]. rewrite box_of_vertices. eauto. }
  destruct Hbox as [min [max Hbox]].
  rewrite (parseFile_of_decoded sqrt _ _ _ _ file geometry Hdec), Hres.
  eexists _, min, max. split; [reflexivity|].
  cbn [ParsedModel.boundingBox]. split; [exact Hbox|].
  unfold convertModelToCuttingPath.
  cbn [ParsedModel.cuttingPaths ParsedModel.boundingBox List.length Nat.ltb
       Nat.leb].
  rewrite Hbox. reflexivity.
Qed.

End SimulationPath.

(** ** CuttingSimulation: the progress of the cut *)

Lemma updateCutProgress_invariant isRunning wireSpeed state :
  0 <= fst state <= 100 /\ (snd state = true -> fst state = 100) ->
  0 <= fst (updateCutProgress isRunning wireSpeed state) <= 100
  /\ (snd (updateCutProgress isRunning wireSpeed state) = true ->
      fst (updateCutProgress isRunning wireSpeed state) = 100).
Proof.
  destruct state as [progress complete]. cbn [fst snd]. intros [Hrange Hflag].
  unfold updateCutProgress.
  destruct (isRunning && Qltb progress 100); [|cbn [fst snd]; auto].
  destruct (Qgeb (progress + Math.max (1 # 10) (wireSpeed / 2500)) 100) eqn:Hge;
    cbn [fst snd].
  - split; [lra | reflexivity].
  - unfold Qgeb in Hge. apply Qle_bool_false in Hge.
    pose proof (Q.le_max_l (1 # 10) (wireSpeed / 2500)) as Hspeed.
    unfold Math.max in *. split; [lra|].
    intros Hc. rewrite (Hflag Hc) in Hge. lra.
Qed.

(** Started from [resetSimulation], the progress never leaves [0, 100]
    through any run of frames, and the completion flag is raised only
    with the progress at 100. *)
Theorem cut_progress_stays_within_bounds frames :
  0 <= fst (animateFrames frames resetSimulation) <= 100
  /\ (snd (animateFrames frames resetSimulation) = true ->
      fst (animateFrames frames resetSimulation) = 100).
Proof.
  unfold animateFrames.
  assert (Hgen : forall state,
             0 <= fst state <= 100 /\ (snd state = true -> fst state = 100) ->
             0 <= fst (fold_left
                         (fun state frame =>
                            updateCutProgress (fst frame) (snd frame) state)
                         frames state) <= 100
             /\ (snd (fold_left
                        (fun state frame =>
                           updateCutProgress (fst frame) (snd frame) state)
                        frames state) = true ->
                 fst (fold_left
                        (fun state frame =>
                           updateCutProgress (fst frame) (snd frame) state)
                        frames state) = 100)).
  { induction frames as [|frame frames IH]; intros state Hstate.
    - exact Hstate.
    - cbn [fold_left]. apply IH. now apply updateCutProgress_invariant. }
  apply Hgen. unfold resetSimulation. cbn [fst snd].
  split; [lra | discriminate].
Qed.

Lemma running_frame_advances wireSpeed state k :
  state = (100, true)
  \/ (snd state = false /\ ofNat k * (1 # 10) <= fst state /\ fst state < 100) ->
  updateCutProgress true wireSpeed state = (100, true)
  \/ (snd (updateCutProgress true wireSpeed state) = false
      /\ ofNat (S k) * (1 # 10) <= fst (updateCutProgress true wireSpeed state)
      /\ fst (updateCutProgress true wireSpeed state) < 100).
Proof.
  intros [->|[Hflag [Hlow Hhigh]]].
  - left. reflexivity.
  - destruct state as [progress complete]. cbn [fst snd] in *. subst complete.
    unfold updateCutProgress. cbn [andb].
    assert (Hlt : Qltb progress 100 = true) by now apply Qltb_true.
    rewrite Hlt.
    destruct (Qgeb (progress + Math.max (1 # 10) (wireSpeed / 2500)) 100) eqn:Hge.
    + left. reflexivity.
    + right. cbn [fst snd]. unfold Qgeb in Hge. apply Qle_bool_false in Hge.
      pose proof (Q.le_max_l (1 # 10) (wireSpeed / 2500)) as Hspeed.
      unfold Math.max in *.
      assert (Hk : ofNat (S k) == ofNat k + 1).
      { unfold ofNat. rewrite Nat2Z.inj_succ, <- Z.add_1_r, inject_Z_plus.
        reflexivity. }
      split; [reflexivity|]. split; [rewrite Hk; lra | exact Hge].
Qed.

(** While the simulation runs, the cut started by [resetSimulation] is
    complete after at most 1001 frames, whatever the wire speed (even 0
    or negative): the progress is then exactly 100 and the completion
    flag is raised. *)
Theorem cut_completes_within_1001_frames frames :
  Forall (fun frame : bool * Q => fst frame = true) frames ->
  (1001 <= List.length frames)%nat ->
  animateFrames frames resetSimulation = (100, true).
Proof.
  intros Hrunning Hlen. unfold animateFrames.
  assert (Hgen : forall k state,
             Forall (fun frame : bool * Q => fst frame = true) frames ->
             (state = (100, true)
              \/ (snd state = false /\ ofNat k * (1 # 10) <= fst state
                  /\ fst state < 100)) ->
             let final :=
               fold_left
                 (fun state frame =>
                    updateCutProgress (fst frame) (snd frame) state)
                 frames state in
             final = (100, true)
             \/ (snd final = false
                 /\ ofNat (k + List.length frames) * (1 # 10) <= fst final
                 /\ fst final < 100)).
  { clear Hrunning Hlen.
    induction frames as [|[running speed] frames IH]; intros k state Hall Hstate.
    - cbn [fold_left List.length]. now rewrite Nat.add_0_r.
    - inversion Hall as [|? ? Hrun Hall']; subst. cbn [fst] in Hrun. subst.
      cbn [fold_left fst snd List.length].
      replace (k + S (List.length frames))%nat
        with (S k + List.length frames)%nat by lia.
      apply IH; [exact Hall'|]. now apply running_frame_advances. }
  destruct (Hgen 0%nat resetSimulation Hrunning) as [Hdone|[_ [Hlow Hhigh]]].
  - right. unfold resetSimulation. cbn [fst snd].
    split; [reflexivity|]. split; [|lra]. vm_compute. discriminate.
  - exact Hdone.
  - exfalso.
    assert (Hmany : ofNat 1001 <= ofNat (0 + List.length frames)).
    { unfold ofNat. rewrite <- Zle_Qle. lia. }
    change (ofNat 1001) with 1001 in Hmany. lra.
Qed.

(** ** The process metrics and the SVM prediction *)

Lemma Qdiv_pos a b : 0 < a -> 0 < b -> 0 < a / b.
Proof. intros Ha Hb. apply Qlt_shift_div_l; [exact Hb | lra]. Qed.

(** With every parameter inside the range of its slider, no division of
    [processMetrics] is by zero, the duty cycle lies strictly between 0
    and 100, the removal rate and the wire wear rate are positive, the
    efficiency is positive and capped at 100, and the roughness lies
    between 2 and 9.8. *)
Theorem processMetrics_within_slider_ranges parameters :
  withinSliderRanges parameters ->
  0 < pulseOnTime parameters + pulseOffTime parameters
  /\ 0 < wireSpeed parameters * 100
  /\ 0 < ProcessMetrics.dutyCycle (processMetrics parameters) < 100
  /\ 0 < ProcessMetrics.materialRemovalRate (processMetrics parameters)
  /\ 0 < ProcessMetrics.wireWearRate (processMetrics parameters)
  /\ 0 < ProcessMetrics.efficiency (processMetrics parameters) <= 100
  /\ 2 <= ProcessMetrics.surfaceRoughness (processMetrics parameters)
     <= 98 # 10.
Proof.
  unfold withinSliderRanges.
  intros [[Hv1 Hv2] [[Hc1 Hc2] [[Hon1 Hon2] [[Hoff1 Hoff2]
         [[Hw1 Hw2] [[Hd1 Hd2] _]]]]]].
  unfold processMetrics.
  cbn [ProcessMetrics.dutyCycle ProcessMetrics.materialRemovalRate
       ProcessMetrics.wireWearRate ProcessMetrics.efficiency
       ProcessMetrics.surfaceRoughness].
  set (V := voltage parameters) in *. set (I := current parameters) in *.
  set (on := pulseOnTime parameters) in *.
  set (off := pulseOffTime parameters) in *.
  set (W := wireSpeed parameters) in *.
  set (F := dielectricFlow parameters) in *.
  assert (Hsum : 0 < on + off) by lra.
  assert (Hratio : 0 < on / (on + off)) by (apply Qdiv_pos; lra).
  assert (Hratio1 : on / (on + off) < 1).
  { apply Qlt_shift_div_r; [exact Hsum | lra]. }
  set (ratio := on / (on + off)) in *.
  assert (Hduty : 0 < ratio * 100) by lra.
  assert (HVI : 0 < V * I) by nra.
  assert (Henergy : 0 < V * I * on / 1000).
  { apply Qdiv_pos; [nra | lra]. }
  split; [exact Hsum|]. split; [lra|]. split; [lra|]. split.
  { apply Qdiv_pos; [|lra].
    apply Qmult_lt_0_compat; [apply Qmult_lt_0_compat; assumption | lra]. }
  split.
  { apply Qdiv_pos; [nra | lra]. }
  split.
  { unfold Math.min. split; [|apply Q.le_min_l].
    apply Q.min_glb_lt; [lra|].
    apply Qdiv_pos; [|lra].
    apply Qmult_lt_0_compat; [apply Qmult_lt_0_compat; [exact Hduty | lra] | lra]. }
  unfold Math.max.
  assert (Hexpr : 5 - V / 100 + on / 20 == 5 - V * (1 # 100) + on * (1 # 20))
    by field.
  destruct (Q.max_spec (1 # 10) (5 - V / 100 + on / 20)) as [[_ ->]|[Hle ->]];
    [|rewrite Hexpr in Hle; lra].
  rewrite Hexpr. lra.
Qed.

(** The removal rate predicted by the SVM model is, for non-negative
    parameters, the weighted sum with all four weights positive (the
    negative pulse-on weight is subtracted), so it rises with the
    pulse-on time; and with the parameters inside the slider ranges the
    processing-time floor is never reached. *)
Theorem svmPredict_linear_parts params :
  (0 <= voltage params -> 0 <= current params ->
   0 <= pulseOnTime params -> 0 <= pulseOffTime params ->
   Prediction.materialRemovalRate (svmPredict params)
   == (2 # 100) * voltage params + (15 # 100) * current params
      + (1 # 100) * pulseOnTime params + (5 # 1000) * pulseOffTime params)
  /\ (withinSliderRanges params ->
      Prediction.processingTime (svmPredict params)
      == 60 - (5 # 10) * current params - (1 # 10) * voltage params
      /\ 5 <= Prediction.processingTime (svmPredict params) <= (575 # 10)).
Proof.
  unfold svmPredict, withinSliderRanges, Math.max,
    SVMWeights.voltage, SVMWeights.current, SVMWeights.pulseOn,
    SVMWeights.pulseOff.
  cbn [Prediction.materialRemovalRate Prediction.processingTime].
  split.
  - intros Hv Hc Hon Hoff.
    destruct (Q.max_spec 0
                ((2 # 100) * voltage params + (15 # 100) * current params
                 - - (1 # 100) * pulseOnTime params
                 + (5 # 1000) * pulseOffTime params)) as [[_ ->]|[Hle ->]];
      lra.
  - intros [[Hv1 Hv2] [[Hc1 Hc2] _]].
    destruct (Q.max_spec 1
                (60 - current params * (5 # 10) - voltage params * (1 # 10)))
      as [[_ ->]|[Hle ->]]; [|lra].
    split; [ring|]. lra.
Qed.

(** * The further properties on sample inputs *)

Lemma sqrtMilli_nonnegative q : 0 <= sqrtMilli q.
Proof.
  unfold sqrtMilli. apply Qle_shift_div_l; [reflexivity|].
  rewrite Qmult_0_l. change 0 with (inject_Z 0). rewrite <- Zle_Qle.
  apply Z.sqrt_nonneg.
Qed.

Lemma parseFile_depends_on_extension_only_witness :
  parseFile sqrtMilli (fun _ => Return tetrahedron)
    (fun _ => Return [tetrahedron]) (fun _ => Return tetrahedron)
    (fun _ => EmptyString) bracketFile
  = parseFile sqrtMilli (fun _ => Return tetrahedron)
      (fun _ => Return [tetrahedron]) (fun _ => Return tetrahedron)
      (fun _ => EmptyString) bareFile.
Proof.
  apply (parseFile_depends_on_extension_only sqrtMilli
           (fun _ => Return tetrahedron) (fun _ => Return [tetrahedron])
           (fun _ => Return tetrahedron) (fun _ => EmptyString)
           bracketFile bareFile "STL" "stl");
    try reflexivity.
  - right. exists "Bracket.v2"%string. reflexivity.
  - left. reflexivity.
Defined.

Lemma parseFile_unsupported_extension_witness :
  parseFile sqrtMilli (fun _ => Return cube) (fun _ => Return [cube])
    (fun _ => Return cube) (fun _ => EmptyString) textFile
  = FileParseResult.make false None
      (Some "Unsupported file format: txt. Supported formats: STL, OBJ, PLY"%string).
Proof.
  apply (parseFile_unsupported_extension sqrtMilli (fun _ => Return cube)
           (fun _ => Return [cube]) (fun _ => Return cube)
           (fun _ => EmptyString) textFile "TXT");
    try reflexivity; try discriminate.
  right. exists "notes"%string. reflexivity.
Defined.

Lemma parseFile_reports_loader_exception_witness :
  parseFile sqrtMilli (fun _ => Throw "Unexpected end of file"%string)
    (fun _ => Return [cube]) (fun _ => Return cube) (fun _ => EmptyString)
    sampleFile
  = FileParseResult.make false None
      (Some "Failed to parse file: Unexpected end of file"%string)
  /\ parseFile sqrtMilli (fun _ => Return cube) (fun _ => Return [cube])
       (fun _ => ThrowOther) (fun _ => EmptyString) plyFile
     = FileParseResult.make false None
         (Some "Failed to parse file: Unknown error"%string).
Proof.
  split.
  - apply (proj1 (parseFile_reports_loader_exception sqrtMilli
                    (fun _ => Throw "Unexpected end of file"%string)
                    (fun _ => Return [cube]) (fun _ => Return cube)
                    (fun _ => EmptyString) sampleFile "STL"
                    (or_intror (ex_intro _ "Part"%string eq_refl)) eq_refl)).
    left. split; reflexivity.
  - apply (proj2 (parseFile_reports_loader_exception sqrtMilli
                    (fun _ => Return cube) (fun _ => Return [cube])
                    (fun _ => ThrowOther) (fun _ => EmptyString)
                    plyFile "ply" (or_introl eq_refl) eq_refl)).
    right. right. split; reflexivity.
Defined.

Lemma parseFile_obj_uses_first_child_witness :
  parseFile sqrtMilli (fun _ => Return cube)
    (fun _ => Return [cube; degenerateTriangle]) (fun _ => Return cube)
    (fun _ => EmptyString) objFile
  = parseFile sqrtMilli (fun _ => Return cube)
      (fun _ => Return [cube]) (fun _ => Return cube)
      (fun _ => EmptyString) objFile.
Proof.
  apply (proj1 (parseFile_obj_uses_first_child sqrtMilli (fun _ => Return cube)
                  (fun _ => Return [cube; degenerateTriangle])
                  (fun _ => Return cube) (fun _ => EmptyString)
                  objFile "gear" "Obj" eq_refl eq_refl eq_refl)
           cube [degenerateTriangle]).
  reflexivity.
Defined.

Lemma parseFile_keeps_connectivity_witness :
  exists model positions',
    parseSampleAs cube = FileParseResult.make true (Some model) None
    /\ BufferGeometry.position (ParsedModel.geometry model) = Some positions'
    /\ List.length positions' = List.length cubePositions
    /\ BufferGeometry.index (ParsedModel.geometry model) = Some cubeIndices
    /\ ParsedModel.boundingBox model
       = BufferGeometry.setFromBufferAttribute positions'
    /\ BufferGeometry.boundingBox (ParsedModel.geometry model)
       = Some (ParsedModel.boundingBox model)
    /\ (wellFormed cubePositions (Some cubeIndices) ->
        vertices (ParsedModel.metadata model)
        == ofNat (List.length (BufferGeometry.vertices cubePositions))
        /\ faces (ParsedModel.metadata model)
           == ofNat (List.length (triangles cubePositions (Some cubeIndices)))).
Proof.
  apply (parseFile_keeps_connectivity sqrtMilli (fun _ => Return cube)
           (fun _ => Return [cube]) (fun _ => Return cube)
           (fun _ => EmptyString) sampleFile cube cubePositions);
    reflexivity.
Defined.

Lemma parseFile_nonindexed_has_no_cutting_paths_witness :
  exists model,
    parseSampleAs triangleSoup = FileParseResult.make true (Some model) None
    /\ ParsedModel.cuttingPaths model = [].
Proof.
  apply (parseFile_nonindexed_has_no_cutting_paths sqrtMilli
           (fun _ => Return triangleSoup) (fun _ => Return [triangleSoup])
           (fun _ => Return triangleSoup) (fun _ => EmptyString)
           sampleFile triangleSoup trianglePositions);
    reflexivity.
Defined.

Lemma cube_wellFormed : wellFormed cubePositions (Some cubeIndices).
Proof.
  simpl. repeat split; try reflexivity. repeat constructor.
Defined.

Lemma calculateVolume_ignores_winding_witness :
  exists volume flipped,
    calculateVolume cube = Return volume
    /\ calculateVolume
         (BufferGeometry.make (Some cubePositions)
            (Some (flipWinding cubeIndices)) None)
       = Return flipped
    /\ flipped == volume.
Proof.
  apply (calculateVolume_ignores_winding cube cubePositions cubeIndices);
    try reflexivity.
  exact cube_wellFormed.
Defined.

Lemma calculateVolume_scales_cubically_witness :
  exists volume scaled,
    calculateVolume cube = Return volume
    /\ calculateVolume (BufferGeometry.scale cube 5 5 5) = Return scaled
    /\ scaled == Qabs (5 * 5 * 5) * volume.
Proof.
  apply (calculateVolume_scales_cubically cube cubePositions 5);
    [reflexivity | exact cube_wellFormed].
Defined.

Lemma calculateSurfaceArea_nonnegative_witness :
  exists area, calculateSurfaceArea sqrtMilli cube = Return area /\ 0 <= area.
Proof.
  apply (calculateSurfaceArea_nonnegative sqrtMilli cube cubePositions);
    [exact sqrtMilli_nonnegative | reflexivity].
Defined.

Lemma getTriangleZPlaneIntersections_off_plane_witness :
  getTriangleZPlaneIntersections
    (Vector3.new 0 0 1) (Vector3.new 1 0 2) (Vector3.new 0 1 3) 0 (1 # 10) = [].
Proof.
  apply getTriangleZPlaneIntersections_off_plane.
  left. repeat split.
Defined.

Lemma getTriangleZPlaneIntersections_level_triangle_witness :
  getTriangleZPlaneIntersections
    (Vector3.new 0 0 0) (Vector3.new 1 0 0) (Vector3.new 0 1 0) 0 (1 # 10) = [].
Proof.
  apply getTriangleZPlaneIntersections_level_triangle;
    vm_compute; discriminate.
Defined.

Lemma getTriangleZPlaneIntersections_generic_witness :
  let emitted :=
    List.length (trianglePoints 0 (1 # 10) crossingTriangle) in
  (emitted = 0%nat \/ emitted = 2%nat)
  /\ (emitted = 0%nat
      <-> (-1 < 0 /\ 1 < 0 /\ 3 < 0) \/ (0 < -1 /\ 0 < 1 /\ 0 < 3)).
Proof.
  apply (getTriangleZPlaneIntersections_generic
           (Vector3.new 0 0 (-1)) (Vector3.new 2 0 1) (Vector3.new 0 4 3)
           0 (1 # 10)).
  - vm_compute. discriminate.
  - left. reflexivity.
  - right. reflexivity.
  - right. reflexivity.
Defined.

Lemma getTriangleZPlaneIntersections_on_edge_lines_witness :
  let p := hd Vector3.zero (trianglePoints 0 (1 # 10) crossingTriangle) in
  exists start end_,
    In (start, end_)
       [(Vector3.new 0 0 (-1), Vector3.new 2 0 1);
        (Vector3.new 2 0 1, Vector3.new 0 4 3);
        (Vector3.new 0 4 3, Vector3.new 0 0 (-1))]
    /\ edgeCrosses start end_ 0 (1 # 10) = true
    /\ Vector3.z p = 0
    /\ (Vector3.x p - Vector3.x start) * (Vector3.z end_ - Vector3.z start)
       == (Vector3.x end_ - Vector3.x start) * (0 - Vector3.z start)
    /\ (Vector3.y p - Vector3.y start) * (Vector3.z end_ - Vector3.z start)
       == (Vector3.y end_ - Vector3.y start) * (0 - Vector3.z start).
Proof.
  intros p.
  apply (getTriangleZPlaneIntersections_on_edge_lines
           (Vector3.new 0 0 (-1)) (Vector3.new 2 0 1) (Vector3.new 0 4 3)
           0 (1 # 10) p).
  - vm_compute. discriminate.
  - vm_compute. left. reflexivity.
Defined.

Lemma generateSliceContour_collects_triangle_points_witness :
  exists contour,
    generateSliceContour sqrtMilli cube 10 = Return contour
    /\ Permutation
         (flat_map (trianglePoints 10 (1 # 10))
            (triangles cubePositions (Some cubeIndices)))
         contour
    /\ (List.length contour <= List.length cubeIndices)%nat.
Proof.
  apply (generateSliceContour_collects_triangle_points sqrtMilli cube
           cubePositions cubeIndices 10);
    try reflexivity.
  exact cube_wellFormed.
Defined.

Lemma generateSliceContour_outside_mesh_witness :
  generateSliceContour sqrtMilli cube 30 = Return [].
Proof.
  apply (generateSliceContour_outside_mesh sqrtMilli cube cubePositions
           cubeIndices 30);
    try reflexivity.
  - exact cube_wellFormed.
  - right. simpl. repeat constructor.
Defined.

Lemma generateCuttingPaths_thin_mesh_witness :
  (forall z, generateSliceContour sqrtMilli plate z = Return [])
  /\ generateCuttingPaths sqrtMilli plate = Return [].
Proof.
  apply (generateCuttingPaths_thin_mesh sqrtMilli plate platePositions
           plateIndices (Vector3.new 0 0 0) (Vector3.new 10 10 0)
           (Box3.box (Vector3.new 0 0 0) (Vector3.new 10 10 0)));
    try reflexivity.
  - simpl. repeat split; try reflexivity. repeat constructor.
  - vm_compute. discriminate.
Defined.

Lemma generateCuttingPaths_bottom_to_top_witness :
  exists paths heights,
    generateCuttingPaths sqrtMilli cubeBoxed = Return paths
    /\ Forall2 (fun height contour =>
                  Forall (fun p => Vector3.z p = height) contour)
               heights paths
    /\ StronglySorted Qlt heights
    /\ Forall (fun height => 0 <= height /\ height <= 20) heights.
Proof.
  apply (generateCuttingPaths_bottom_to_top sqrtMilli cubeBoxed cubePositions
           (Vector3.new 0 0 0) (Vector3.new 20 20 20));
    reflexivity.
Defined.

Lemma upload_check_matches_parser_witness :
  decode (fun _ => Return cube) (fun _ => Return [cube])
    (fun _ => Return cube) (fun _ => EmptyString) "ply" []
  <> None.
Proof.
  apply (upload_check_matches_parser (fun _ => Return cube)
           (fun _ => Return [cube]) (fun _ => Return cube)
           (fun _ => EmptyString) "ply" []).
  reflexivity.
Defined.

Lemma tetrahedronModel_parsed :
  parseFile sqrtMilli (fun _ => Return tetrahedron)
    (fun _ => Return [tetrahedron]) (fun _ => Return tetrahedron)
    (fun _ => EmptyString) sampleFile
  = FileParseResult.make true (Some tetrahedronModel) None.
Proof. vm_compute. reflexivity. Defined.

Lemma handleFileSelect_loads_parsed_model_witness :
  handleFileSelect sqrtMilli (fun _ => Return tetrahedron)
    (fun _ => Return [tetrahedron]) (fun _ => Return tetrahedron)
    (fun _ => EmptyString) sampleFile
  = ModelLoaded tetrahedronModel.
Proof.
  apply (handleFileSelect_loads_parsed_model sqrtMilli
           (fun _ => Return tetrahedron) (fun _ => Return [tetrahedron])
           (fun _ => Return tetrahedron) (fun _ => EmptyString)
           sampleFile tetrahedronModel).
  split.
  - vm_compute. discriminate.
  - exact tetrahedronModel_parsed.
Defined.

Lemma drawnPaths_progressive_witness :
  (exists more,
      drawnPaths tetrahedronModel 75 = drawnPaths tetrahedronModel 30 ++ more)
  /\ drawnPaths tetrahedronModel 100
     = filter (fun path => (1 <? List.length path)%nat)
              (ParsedModel.cuttingPaths tetrahedronModel)
  /\ drawnPaths tetrahedronModel 0 = [].
Proof.
  apply (drawnPaths_progressive tetrahedronModel 30 75);
    vm_compute; discriminate.
Defined.

Lemma convertModelToCuttingPath_of_parsed_model_witness :
  exists model,
    parseFile sqrtMilli (fun _ => Return tetrahedron)
      (fun _ => Return [tetrahedron]) (fun _ => Return tetrahedron)
      (fun _ => EmptyString) sampleFile
    = FileParseResult.make true (Some model) None
    /\ convertModelToCuttingPath model <> []
    /\ exists z,
         Forall (fun p => Point3D.z p = z) (convertModelToCuttingPath model).
Proof.
  apply (convertModelToCuttingPath_of_parsed_model sqrtMilli
           (fun _ => Return tetrahedron) (fun _ => Return [tetrahedron])
           (fun _ => Return tetrahedron) (fun _ => EmptyString)
           sampleFile tetrahedron tetrahedronPositions);
    try reflexivity.
  left. vm_compute. reflexivity.
Defined.

Lemma convertModelToCuttingPath_of_nonindexed_mesh_witness :
  exists model min max,
    parseSampleAs triangleSoup = FileParseResult.make true (Some model) None
    /\ ParsedModel.boundingBox model = Box3.box min max
    /\ convertModelToCuttingPath model
       = map (fun c : Q * Q =>
                Point3D.make (Finite (fst c)) (Finite (snd c))
                             (Finite (Vector3.z max)))
             [ (Vector3.x min, Vector3.y min); (Vector3.x max, Vector3.y min);
               (Vector3.x max, Vector3.y max); (Vector3.x min, Vector3.y max);
               (Vector3.x min, Vector3.y min) ].
Proof.
  apply (convertModelToCuttingPath_of_nonindexed_mesh sqrtMilli
           (fun _ => Return triangleSoup) (fun _ => Return [triangleSoup])
           (fun _ => Return triangleSoup) (fun _ => EmptyString)
           sampleFile triangleSoup trianglePositions);
    reflexivity.
Defined.

Lemma cut_completes_within_1001_frames_witness :
  animateFrames (repeat (true, 250) 1001) resetSimulation = (100, true).
Proof.
  apply cut_completes_within_1001_frames.
  - apply Forall_forall. intros frame Hframe.
    apply repeat_spec in Hframe. subst frame. reflexivity.
  - rewrite repeat_length. lia.
Defined.

Lemma defaultParameters_withinSliderRanges : withinSliderRanges defaultParameters.
Proof. unfold withinSliderRanges. vm_compute. repeat split; discriminate. Defined.

Lemma processMetrics_within_slider_ranges_witness :
  0 < pulseOnTime defaultParameters + pulseOffTime defaultParameters
  /\ 0 < wireSpeed defaultParameters * 100
  /\ 0 < ProcessMetrics.dutyCycle (processMetrics defaultParameters) < 100
  /\ 0 < ProcessMetrics.materialRemovalRate (processMetrics defaultParameters)
  /\ 0 < ProcessMetrics.wireWearRate (processMetrics defaultParameters)
  /\ 0 < ProcessMetrics.efficiency (processMetrics defaultParameters) <= 100
  /\ 2 <= ProcessMetrics.surfaceRoughness (processMetrics defaultParameters)
     <= 98 # 10.
Proof.
  apply processMetrics_within_slider_ranges.
  exact defaultParameters_withinSliderRanges.
Defined.

Lemma svmPredict_linear_parts_witness :
  Prediction.materialRemovalRate (svmPredict defaultParameters)
  == (2 # 100) * 150 + (15 # 100) * 25 + (1 # 100) * 50 + (5 # 1000) * 100
  /\ Prediction.processingTime (svmPredict defaultParameters)
     == 60 - (5 # 10) * 25 - (1 # 10) * 150.
Proof.
  split.
  - apply (proj1 (svmPredict_linear_parts defaultParameters));
      vm_compute; discriminate.
  - apply (proj2 (svmPredict_linear_parts defaultParameters)).
    exact defaultParameters_withinSliderRanges.
Defined.
